(** * DataLoader: the read / write / execute pipeline of the lakehouse engine

    A shallow embedding of [lakehouse_engine/algorithms/data_loader.py].

    - Python values of the configuration document (the ACON) are the
      inductive [pyval]; a Python [dict] with string keys is an association
      list that is searched from the front.
    - An [OrderedDict] is the association list [odict]: assigning to a key
      that is present replaces the value where the key stands, assigning to
      a new key appends it.
    - Exceptions are values of [exn]; code that can raise returns [result].
    - [read], [write] and [execute] call the reader and the writer back ends
      and the logger.  They are functions in the monad [M] whose state is
      the state of the outside world together with the chronological list
      of the calls made so far, so that what was called, in which order and
      with which outcome can be stated. *)

From stdpp Require Import base option list strings.
From Stdlib Require Import ZArith.

Local Open Scope string_scope.
Local Open Scope list_scope.
Local Open Scope nat_scope.
Set Warnings "-register-all".

(** ** Python values and exceptions *)

Inductive pyval : Type :=
| PyNone
| PyBool (b : bool)
| PyInt (z : Z)
| PyStr (s : string)
| PyList (items : list pyval)
| PyDict (items : list (string * pyval)).

Definition pydict : Type := list (string * pyval).

(** The hashable values, up to Python's [==]: [True == 1] and [False == 0]
    are the same dictionary key. *)
Inductive hkey : Type :=
| KNone
| KInt (z : Z)
| KStr (s : string).

#[global] Instance hkey_eq_dec : EqDecision hkey.
Proof. solve_decision. Defined.

Inductive exn : Type :=
| KeyError (k : hkey)
| TypeError
| OtherError (name : string).

Inductive result (A : Type) : Type :=
| Ok (a : A)
| Raise (e : exn).
Arguments Ok {A} a.
Arguments Raise {A} e.

#[global] Instance result_ret : MRet result := fun A a => Ok a.
#[global] Instance result_bind : MBind result := fun A B f r =>
  match r with
  | Ok a => f a
  | Raise e => Raise e
  end.

(** [hash(v)]: lists and dicts are unhashable. *)
Definition py_hash (v : pyval) : option hkey :=
  match v with
  | PyNone => Some KNone
  | PyBool b => Some (KInt (if b then 1 else 0)%Z)
  | PyInt z => Some (KInt z)
  | PyStr s => Some (KStr s)
  | PyList _ => None
  | PyDict _ => None
  end.

Fixpoint dict_lookup (k : string) (d : pydict) : option pyval :=
  match d with
  | [] => None
  | (k', v) :: d' => if decide (k = k') then Some v else dict_lookup k d'
  end.

(** [d[k]] on a dict. *)
Definition dict_getitem (d : pydict) (k : string) : result pyval :=
  match dict_lookup k d with
  | Some v => Ok v
  | None => Raise (KeyError (KStr k))
  end.

(** [d.get(k, default)]. *)
Definition dict_get (d : pydict) (k : string) (default : pyval) : pyval :=
  match dict_lookup k d with
  | Some v => v
  | None => default
  end.

Fixpoint chars (s : string) : list pyval :=
  match s with
  | EmptyString => []
  | String c s' => PyStr (String c EmptyString) :: chars s'
  end.

(** [for x in v]: a list yields its items, a dict its keys, a string its
    characters; the other values are not iterable. *)
Definition py_iter (v : pyval) : result (list pyval) :=
  match v with
  | PyList items => Ok items
  | PyDict items => Ok (map (fun kv => PyStr (fst kv)) items)
  | PyStr s => Ok (chars s)
  | PyNone | PyBool _ | PyInt _ => Raise TypeError
  end.

(** A list comprehension whose element expression can raise: elements are
    built from left to right and the first exception ends it. *)
Fixpoint comprehension {A B : Type} (f : A → result B) (l : list A)
  : result (list B) :=
  match l with
  | [] => Ok []
  | x :: l' => y ← f x; ys ← comprehension f l'; mret (y :: ys)
  end.

(** ** Ordered dictionaries *)

Definition odict (V : Type) : Type := list (hkey * V).

Fixpoint od_get {V : Type} (k : hkey) (d : odict V) : option V :=
  match d with
  | [] => None
  | (k', v) :: d' => if decide (k = k') then Some v else od_get k d'
  end.

(** [d[k] = v] with a hashed key. *)
Fixpoint od_set {V : Type} (k : hkey) (v : V) (d : odict V) : odict V :=
  match d with
  | [] => [(k, v)]
  | (k', v') :: d' =>
      if decide (k = k') then (k', v) :: d' else (k', v') :: od_set k v d'
  end.

(** [d.update(m)]: the items of [m] are assigned in the order of [m]. *)
Definition od_update {V : Type} (d m : odict V) : odict V :=
  foldl (fun acc kv => od_set (fst kv) (snd kv) acc) d m.

Definition od_keys {V : Type} (d : odict V) : list hkey := fst <$> d.

(** The truth value of an [Optional[OrderedDict]]: [None] and the empty
    mapping are false. *)
Definition truthy {V : Type} (o : option (odict V)) : bool :=
  match o with
  | None => false
  | Some [] => false
  | Some (_ :: _) => true
  end.

(** ** Output specifications *)

(** Modelled from the spec: the [OutputSpec] dataclass of
    [lakehouse_engine.core.definitions] is declared in another module;
    the record has the seven fields that [_get_output_specs] passes by
    keyword.  A dataclass stores what it is given, so a field holds any
    Python value. *)
Record OutputSpec : Type := mkOutputSpec {
  spec_id : pyval;
  input_id : pyval;
  write_type : pyval;
  data_format : pyval;
  db_table : pyval;
  location : pyval;
  partitions : pyval
}.

(** [d[key]] and [d[key] = v] on an ordered dictionary, for a key that is
    any Python value: an unhashable key is a [TypeError], a key that is
    looked up and absent a [KeyError]. *)
Definition od_getitem {V : Type} (d : odict V) (key : pyval) : result V :=
  match py_hash key with
  | None => Raise TypeError
  | Some k =>
      match od_get k d with
      | Some v => Ok v
      | None => Raise (KeyError k)
      end
  end.

Definition od_setitem {V : Type} (d : odict V) (key : pyval) (v : V)
  : result (odict V) :=
  match py_hash key with
  | None => Raise TypeError
  | Some k => Ok (od_set k v d)
  end.

(** ** The collaborators of the DataLoader

    What [data_loader.py] imports and does not define: the [InputSpec]
    dataclass with its [spec_id] attribute, the value of
    [OutputFormat.DELTAFILES], and the two factories.  A data frame is an
    object of the engine; [DataFrame] is the type of references to such
    objects, so that equality on it is object identity.  A factory call
    runs in the outside [World] and either raises or returns.  The writer
    is handed the dictionary of data frames to look at, not to change. *)
Class Collaborators : Type := {
  DataFrame : Type;
  World : Type;
  InputSpec : Type;
  (** the constructor call of [InputSpec] on the keyword arguments [spec] *)
  InputSpec_new : pydict → result InputSpec;
  (** [spec.spec_id] of an input specification *)
  input_spec_id : InputSpec → pyval;
  (** [OutputFormat.DELTAFILES.value] *)
  DELTAFILES : pyval;
  (** [ReaderFactory.get_data(spec)] *)
  reader : InputSpec → World → result DataFrame * World;
  (** [WriterFactory.get_writer(spec, df, data).write()] *)
  writer : OutputSpec → DataFrame → odict DataFrame → World →
           result (option (odict DataFrame)) * World
}.

Section DataLoader.
Context `{C : Collaborators}.

(** *** Construction *)

(** The object after [__init__]; [Algorithm.__init__] stores the ACON. *)
Record DataLoader : Type := mkDataLoader {
  acon : pydict;
  input_specs : list InputSpec;
  output_specs : list OutputSpec
}.

(** [InputSpec] called on the unpacked [spec]: what is unpacked into
    keyword arguments has to be a mapping. *)
Definition input_spec_of (spec : pyval) : result InputSpec :=
  match spec with
  | PyDict d => InputSpec_new d
  | _ => Raise TypeError
  end.

Definition _get_input_specs (acon : pydict) : result (list InputSpec) :=
  v ← dict_getitem acon "input_specs";
  items ← py_iter v;
  comprehension input_spec_of items.

(** One element of the comprehension of [_get_output_specs]; the keyword
    arguments are evaluated from first to last, and [spec["spec_id"]] on a
    value that is not a dict is a [TypeError]. *)
Definition output_spec_of (spec : pyval) : result OutputSpec :=
  match spec with
  | PyDict d =>
      sid ← dict_getitem d "spec_id";
      iid ← dict_getitem d "input_id";
      mret {| spec_id := sid;
              input_id := iid;
              write_type := dict_get d "write_type" PyNone;
              data_format := dict_get d "data_format" DELTAFILES;
              db_table := dict_get d "db_table" PyNone;
              location := dict_get d "location" PyNone;
              partitions := dict_get d "partitions" (PyList []) |}
  | _ => Raise TypeError
  end.

Definition _get_output_specs (acon : pydict) : result (list OutputSpec) :=
  v ← dict_getitem acon "output_specs";
  items ← py_iter v;
  comprehension output_spec_of items.

(** [DataLoader(acon)] *)
Definition DataLoader_init (acon : pydict) : result DataLoader :=
  ins ← _get_input_specs acon;
  outs ← _get_output_specs acon;
  mret {| acon := acon; input_specs := ins; output_specs := outs |}.

(** *** The pipeline monad *)

Inductive message : Type :=
| FoundInput (spec : InputSpec)
| FoundOutput (spec : OutputSpec)
| StartingRead
| StartingWrite
| Finished.

Inductive event : Type :=
| LogInfo (m : message)
| Printed (d : odict DataFrame)
| ReaderCall (spec : InputSpec) (r : result DataFrame)
| WriterCall (spec : OutputSpec) (df : DataFrame) (data : odict DataFrame)
             (r : result (option (odict DataFrame))).

Record state : Type := mkState {
  world : World;
  trace : list event
}.

Definition M (A : Type) : Type := state → result A * state.

#[local] Instance M_ret : MRet M := fun A a st => (Ok a, st).
#[local] Instance M_bind : MBind M := fun A B f m st =>
  match m st with
  | (Ok a, st') => f a st'
  | (Raise e, st') => (Raise e, st')
  end.

Definition raise {A : Type} (e : exn) : M A := fun st => (Raise e, st).

Definition lift {A : Type} (r : result A) : M A := fun st => (r, st).

Definition emit (ev : event) (st : state) : state :=
  {| world := world st; trace := trace st ++ [ev] |}.

Definition logger_info (m : message) : M unit :=
  fun st => (Ok (), emit (LogInfo m) st).

Definition print (d : odict DataFrame) : M unit :=
  fun st => (Ok (), emit (Printed d) st).

(** [try: body except Exception as e: handler e] *)
Definition try_except {A : Type} (body : M A) (handler : exn → M A) : M A :=
  fun st =>
    match body st with
    | (Ok a, st') => (Ok a, st')
    | (Raise e, st') => handler e st'
    end.

Definition ReaderFactory_get_data (spec : InputSpec) : M DataFrame :=
  fun st =>
    let '(r, w) := reader spec (world st) in
    (r, {| world := w; trace := trace st ++ [ReaderCall spec r] |}).

Definition WriterFactory_write (spec : OutputSpec) (df : DataFrame)
    (data : odict DataFrame) : M (option (odict DataFrame)) :=
  fun st =>
    let '(r, w) := writer spec df data (world st) in
    (r, {| world := w; trace := trace st ++ [WriterCall spec df data r] |}).

(** *** read *)

Fixpoint read_loop (specs : list InputSpec) (read_dfs : odict DataFrame)
  : M (odict DataFrame) :=
  match specs with
  | [] => mret read_dfs
  | spec :: specs' =>
      logger_info (FoundInput spec);;
      df ← ReaderFactory_get_data spec;
      read_dfs' ← lift (od_setitem read_dfs (input_spec_id spec) df);
      read_loop specs' read_dfs'
  end.

Definition read (self : DataLoader) : M (odict DataFrame) :=
  read_loop (input_specs self) [].

(** *** write *)

(** The [if written_output: ... else: ...] of the loop body. *)
Definition store_output (spec : OutputSpec) (data written_dfs : odict DataFrame)
    (written_output : option (odict DataFrame)) : result (odict DataFrame) :=
  if truthy written_output then
    Ok (od_update written_dfs (default [] written_output))
  else
    df ← od_getitem data (input_id spec);
    od_setitem written_dfs (spec_id spec) df.

Fixpoint write_loop (specs : list OutputSpec) (data written_dfs : odict DataFrame)
  : M (odict DataFrame) :=
  match specs with
  | [] => mret written_dfs
  | spec :: specs' =>
      logger_info (FoundOutput spec);;
      df ← lift (od_getitem data (input_id spec));
      written_output ← WriterFactory_write spec df data;
      written_dfs' ← lift (store_output spec data written_dfs written_output);
      write_loop specs' data written_dfs'
  end.

Definition write (self : DataLoader) (data : odict DataFrame)
  : M (odict DataFrame) :=
  write_loop (output_specs self) data [].

(** *** execute *)

Definition execute (self : DataLoader) : M (odict DataFrame) :=
  try_except
    (logger_info StartingRead;;
     read_dfs ← read self;
     print read_dfs;;
     logger_info StartingWrite;;
     written_dfs ← write self read_dfs;
     logger_info Finished;;
     mret written_dfs)
    (fun e => raise e).

(** *** A run of the algorithm

    The data flow of a run: the constructor parses the configuration
    document, and the object it returns is executed. *)
Definition run (acon : pydict) : M (odict DataFrame) :=
  self ← lift (DataLoader_init acon);
  execute self.

(** *** What a stage did

    [reads specs w dfs w']: called on [specs] one after the other from the
    world [w], the reader returns the data frames [dfs] and leaves the
    world [w']. *)
Inductive reads : list InputSpec → World → list DataFrame → World → Prop :=
| reads_nil w : reads [] w [] w
| reads_cons spec specs w df w1 dfs w2 :
    reader spec w = (Ok df, w1) →
    reads specs w1 dfs w2 →
    reads (spec :: specs) w (df :: dfs) w2.

(** [writes data specs w outs w']: the [input_id] of each of [specs] is a
    key of [data], and called on [specs] one after the other from the world
    [w], each time with the data frame found under [input_id], the writer
    returns [outs] and leaves the world [w']. *)
Inductive writes (data : odict DataFrame)
  : list OutputSpec → World → list (option (odict DataFrame)) → World → Prop :=
| writes_nil w : writes data [] w [] w
| writes_cons spec specs w df out w1 outs w2 :
    od_getitem data (input_id spec) = Ok df →
    writer spec df data w = (Ok out, w1) →
    writes data specs w1 outs w2 →
    writes data (spec :: specs) w (out :: outs) w2.

(** [ks] are the identifiers of the input specifications [specs], hashed:
    every [spec_id] can be a dictionary key. *)
Definition hashed_ids (specs : list InputSpec) (ks : list hkey) : Prop :=
  Forall2 (λ spec k, py_hash (input_spec_id spec) = Some k) specs ks.

(** The events of a read stage in which every call returned. *)
Fixpoint read_events (specs : list InputSpec) (dfs : list DataFrame)
  : list event :=
  match specs, dfs with
  | spec :: specs', df :: dfs' =>
      LogInfo (FoundInput spec) :: ReaderCall spec (Ok df)
      :: read_events specs' dfs'
  | _, _ => []
  end.

(** The specifications the writer was called with, in the order of the
    calls. *)
Fixpoint writer_calls (tr : list event) : list OutputSpec :=
  match tr with
  | [] => []
  | WriterCall spec _ _ _ :: tr' => spec :: writer_calls tr'
  | _ :: tr' => writer_calls tr'
  end.

Fixpoint reader_calls (tr : list event) : list InputSpec :=
  match tr with
  | [] => []
  | ReaderCall spec _ :: tr' => spec :: reader_calls tr'
  | _ :: tr' => reader_calls tr'
  end.

(** The keys that the loop body of [write] assigns for a specification
    whose writer returned [out]. *)
Definition written_keys (spec : OutputSpec) (out : option (odict DataFrame))
  : list hkey :=
  if truthy out then od_keys (default [] out)
  else match py_hash (spec_id spec) with
       | Some k => [k]
       | None => []
       end.

(** The items that the loop body of [write] assigns for a specification
    whose writer returned [out], and those of a whole write stage. *)
Definition stored (data : odict DataFrame) (spec : OutputSpec)
    (out : option (odict DataFrame)) : odict DataFrame :=
  if truthy out then default [] out
  else match od_getitem data (input_id spec), py_hash (spec_id spec) with
       | Ok df, Some k => [(k, df)]
       | _, _ => []
       end.

Fixpoint stores (data : odict DataFrame) (specs : list OutputSpec)
    (outs : list (option (odict DataFrame))) : odict DataFrame :=
  match specs, outs with
  | spec :: specs', out :: outs' =>
      stored data spec out ++ stores data specs' outs'
  | _, _ => []
  end.

End DataLoader.

(** ** A small back end

    Enough of a reader and a writer to run the pipeline on examples.  Data
    frames are numbered objects and the world is the number of the next
    object.  Reading from the location ["/missing"] raises; every other
    read makes a new data frame.  A writer with write type ["fail"] raises,
    one with write type ["empty"] returns an empty mapping, one with a
    [db_table] returns the table it wrote as a new data frame under the
    name of the table, and any other returns nothing. *)
Module Demo.

Record spec_in : Type := mkIn {
  in_id : pyval;
  in_location : pyval
}.

Definition spec_in_new (d : pydict) : result spec_in :=
  match dict_lookup "spec_id" d with
  | Some v => Ok {| in_id := v; in_location := dict_get d "location" PyNone |}
  | None => Raise TypeError
  end.

Definition is_str (v : pyval) (s : string) : bool :=
  match v with
  | PyStr s' => bool_decide (s = s')
  | _ => false
  end.

Definition demo_reader (spec : spec_in) (w : nat) : result nat * nat :=
  if is_str (in_location spec) "/missing"
  then (Raise (OtherError "FileNotFoundError"), w)
  else (Ok w, S w).

Definition demo_writer (spec : OutputSpec) (df : nat) (data : odict nat)
    (w : nat) : result (option (odict nat)) * nat :=
  if is_str (write_type spec) "fail" then (Raise (OtherError "IOError"), w)
  else if is_str (write_type spec) "empty" then (Ok (Some []), w)
  else match db_table spec with
       | PyStr t => (Ok (Some [(KStr t, w)]), S w)
       | _ => (Ok None, w)
       end.

#[global] Instance demo : Collaborators := {|
  DataFrame := nat;
  World := nat;
  InputSpec := spec_in;
  InputSpec_new := spec_in_new;
  input_spec_id := in_id;
  DELTAFILES := PyStr "delta";
  reader := demo_reader;
  writer := demo_writer
|}.

Definition start : state := {| world := 0; trace := [] |}.

Definition input (id : string) : pyval := PyDict [("spec_id", PyStr id)].

Definition output (id iid : string) : pyval :=
  PyDict [("spec_id", PyStr id); ("input_id", PyStr iid)].

Definition output_table (id iid table : string) : pyval :=
  PyDict [("spec_id", PyStr id); ("input_id", PyStr iid);
          ("db_table", PyStr table)].

Definition document (ins outs : list pyval) : pydict :=
  [("input_specs", PyList ins); ("output_specs", PyList outs)].

(** Input specifications: two that can be read and one that cannot. *)
Definition in_a : spec_in := mkIn (PyStr "a") PyNone.
Definition in_b : spec_in := mkIn (PyStr "b") PyNone.
Definition in_missing : spec_in := mkIn (PyStr "c") (PyStr "/missing").

(** An output specification with the defaults of [_get_output_specs]. *)
Definition out (id iid : string) (table : pyval) : OutputSpec :=
  {| spec_id := PyStr id;
     input_id := PyStr iid;
     write_type := PyNone;
     data_format := PyStr "delta";
     db_table := table;
     location := PyNone;
     partitions := PyList [] |}.

Definition out_empty (id iid : string) : OutputSpec :=
  {| spec_id := PyStr id;
     input_id := PyStr iid;
     write_type := PyStr "empty";
     data_format := PyStr "delta";
     db_table := PyNone;
     location := PyNone;
     partitions := PyList [] |}.

Definition loader (ins : list spec_in) (outs : list OutputSpec)
  : DataLoader :=
  {| acon := []; input_specs := ins; output_specs := outs |}.

(** The registry and the state after reading [in_a] and [in_b]. *)
Definition data_ab : odict nat := [(KStr "a", 0); (KStr "b", 1)].
Definition after_read : state := {| world := 2; trace := [] |}.

End Demo.

(** *** Facts about ordered dictionaries *)

Section odict_facts.
Context {V : Type}.
Implicit Types (k : hkey) (v : V) (d m l : odict V).

Lemma od_get_set k k' v d :
  od_get k' (od_set k v d) = if decide (k = k') then Some v else od_get k' d.
Proof.
  induction d as [|[k0 v0] d IH]; simpl.
  - repeat case_decide; congruence.
  - repeat (case_decide; simpl); subst; try congruence.
Qed.

Lemma od_get_set_eq k v d : od_get k (od_set k v d) = Some v.
Proof. rewrite od_get_set. by case_decide. Qed.

Lemma od_get_set_ne k k' v d :
  k ≠ k' → od_get k' (od_set k v d) = od_get k' d.
Proof. intros. rewrite od_get_set. by case_decide. Qed.

Lemma od_get_None k d : od_get k d = None ↔ k ∉ od_keys d.
Proof.
  induction d as [|[k0 v0] d IH]; simpl.
  - split; [intros _; apply not_elem_of_nil | done].
  - rewrite not_elem_of_cons. case_decide; subst; simpl.
    + split; [done | intros [? _]; done].
    + rewrite IH. tauto.
Qed.

Lemma od_get_Some_elem k v d : od_get k d = Some v → (k, v) ∈ d.
Proof.
  induction d as [|[k0 v0] d IH]; simpl; [done|].
  case_decide; subst.
  - intros [= ->]. left.
  - intros. right. auto.
Qed.

Lemma od_get_elem k v d : NoDup (od_keys d) → (k, v) ∈ d → od_get k d = Some v.
Proof.
  induction d as [|[k0 v0] d IH]; simpl.
  - intros _ Hin. by apply elem_of_nil in Hin.
  - rewrite NoDup_cons. intros [Hk0 Hnd] Hin.
    apply elem_of_cons in Hin as [[= -> ->]|Hin].
    + by case_decide.
    + case_decide; subst; [|auto].
      exfalso. apply Hk0. unfold od_keys.
      by apply (list_elem_of_fmap_2 fst) in Hin.
Qed.

Lemma od_get_app k d l :
  od_get k (d ++ l) =
  match od_get k d with Some v => Some v | None => od_get k l end.
Proof.
  induction d as [|[k0 v0] d IH]; simpl; [done|]. by case_decide.
Qed.

(** Assigning to an absent key appends the item. *)
Lemma od_set_fresh k v d : od_get k d = None → od_set k v d = d ++ [(k, v)].
Proof.
  induction d as [|[k0 v0] d IH]; simpl; [done|].
  case_decide; [done|]. intros. by rewrite IH.
Qed.

Lemma od_set_length k v d :
  length (od_set k v d) =
  match od_get k d with Some _ => length d | None => S (length d) end.
Proof.
  induction d as [|[k0 v0] d IH]; simpl; [done|].
  case_decide; simpl; [done|]. rewrite IH. by destruct (od_get k d).
Qed.

Lemma od_update_cons d k v l :
  od_update d ((k, v) :: l) = od_update (od_set k v d) l.
Proof. done. Qed.

Lemma od_update_app d l m :
  od_update d (l ++ m) = od_update (od_update d l) m.
Proof. unfold od_update. apply foldl_app. Qed.

(** After an update the last item written under a key is the one found. *)
Lemma od_get_update k d l :
  od_get k (od_update d l) =
  match od_get k (reverse l) with Some v => Some v | None => od_get k d end.
Proof.
  revert d. induction l as [|[k0 v0] l IH]; intros d; [done|].
  rewrite od_update_cons, IH, reverse_cons, od_get_app. simpl.
  destruct (od_get k (reverse l)); [done|].
  rewrite od_get_set. repeat case_decide; congruence.
Qed.

Lemma od_keys_reverse d : od_keys (reverse d) = reverse (od_keys d).
Proof. unfold od_keys. by rewrite fmap_reverse. Qed.

(** Items with pairwise distinct keys, none of them present, are appended
    in their order. *)
Lemma od_update_distinct d l : NoDup (od_keys (d ++ l)) → od_update d l = d ++ l.
Proof.
  revert d. induction l as [|[k0 v0] l IH]; intros d Hnd.
  - by rewrite app_nil_r.
  - rewrite od_update_cons, od_set_fresh.
    + rewrite IH; rewrite <- app_assoc; done.
    + apply od_get_None. unfold od_keys in *. rewrite fmap_app in Hnd.
      apply NoDup_app in Hnd as (_ & Hd & _). intros Hin.
      apply (Hd _ Hin). simpl. left.
Qed.

Lemma od_update_length_le d l : length (od_update d l) ≤ length d + length l.
Proof.
  revert d. induction l as [|[k0 v0] l IH]; intros d; [simpl; lia|].
  rewrite od_update_cons. etrans; [apply IH|].
  rewrite od_set_length. simpl. destruct (od_get k0 d); lia.
Qed.

Lemma od_update_length_present d l k :
  k ∈ od_keys l → k ∈ od_keys d →
  length (od_update d l) < length d + length l.
Proof.
  revert d. induction l as [|[k0 v0] l IH]; intros d Hl Hd.
  - by apply elem_of_nil in Hl.
  - rewrite od_update_cons. simpl in Hl. simpl length.
    destruct (od_get k0 d) as [v1|] eqn:Hk0.
    + pose proof (od_update_length_le (od_set k0 v0 d) l) as Hle.
      rewrite od_set_length, Hk0 in Hle. lia.
    + apply elem_of_cons in Hl as [->|Hl].
      { apply od_get_None in Hk0. done. }
      assert (k ∈ od_keys (od_set k0 v0 d)) as Hd'.
      { destruct (decide (k ∈ od_keys (od_set k0 v0 d))) as [|Hn]; [done|].
        apply od_get_None in Hn. rewrite od_get_set in Hn.
        case_decide; [done|]. apply od_get_None in Hn. done. }
      pose proof (IH _ Hl Hd') as Hlt.
      rewrite od_set_length, Hk0 in Hlt. lia.
Qed.

(** Two items under one key leave fewer entries than items. *)
Lemma od_update_length_dup d l i j k :
  i < j → od_keys l !! i = Some k → od_keys l !! j = Some k →
  length (od_update d l) < length d + length l.
Proof.
  revert d i j. induction l as [|[k0 v0] l IH]; intros d i j Hij Hi Hj.
  - done.
  - rewrite od_update_cons. destruct j as [|j]; [lia|]. simpl in Hj.
    destruct i as [|i]; simpl in Hi.
    + injection Hi as ->.
      assert (length (od_update (od_set k v0 d) l)
              < length (od_set k v0 d) + length l) as Hlt.
      { apply (od_update_length_present _ _ k).
        - by apply list_elem_of_lookup_2 in Hj.
        - destruct (decide (k ∈ od_keys (od_set k v0 d))) as [|Hn]; [done|].
          apply od_get_None in Hn. by rewrite od_get_set_eq in Hn. }
      rewrite od_set_length in Hlt. simpl. destruct (od_get k d); lia.
    + assert (i < j) as Hij' by lia.
      pose proof (IH (od_set k0 v0 d) i j Hij' Hi Hj) as Hlt.
      rewrite od_set_length in Hlt. simpl. destruct (od_get k0 d); lia.
Qed.

(** The item at the last position of a key is the one found from the
    back. *)
Lemma od_get_reverse_last l j k v :
  l !! j = Some (k, v) →
  (∀ j', j < j' → od_keys l !! j' ≠ Some k) →
  od_get k (reverse l) = Some v.
Proof.
  intros Hj Hlast.
  rewrite <- (take_drop_middle l j (k, v) Hj).
  rewrite reverse_app, reverse_cons, <- app_assoc, od_get_app.
  replace (od_get k (reverse (drop (S j) l))) with (@None V).
  - simpl. by case_decide.
  - symmetry. apply od_get_None. rewrite od_keys_reverse, elem_of_reverse.
    unfold od_keys. intros Hin.
    apply list_elem_of_lookup_1 in Hin as [n Hn].
    rewrite fmap_drop, lookup_drop in Hn.
    by apply (Hlast (S j + n)); [lia|].
Qed.

Lemma od_get_update_is_Some d l k :
  k ∈ od_keys l → is_Some (od_get k (od_update d l)).
Proof.
  intros Hin. rewrite od_get_update.
  destruct (od_get k (reverse l)) as [v|] eqn:Hget; [by eexists|].
  apply od_get_None in Hget.
  by rewrite od_keys_reverse, elem_of_reverse in Hget.
Qed.

(** An item of [m] is the one found after an update with [l ++ m ++ l'],
    when the keys of [m] are distinct and [l'] does not have its key. *)
Lemma od_get_update_mid d l m l' k v :
  NoDup (od_keys m) → (k, v) ∈ m → k ∉ od_keys l' →
  od_get k (od_update d (l ++ m ++ l')) = Some v.
Proof.
  intros Hnd Hin Hnot.
  rewrite od_get_update, !reverse_app, <- app_assoc, !od_get_app.
  replace (od_get k (reverse l')) with (@None V).
  - rewrite (od_get_elem k v (reverse m)); [done| |].
    + by rewrite od_keys_reverse, reverse_Permutation.
    + by apply elem_of_reverse.
  - symmetry. apply od_get_None.
    by rewrite od_keys_reverse, elem_of_reverse.
Qed.

End odict_facts.


(** *** Facts about the pipeline monad and the read stage *)

Section read_facts.
Context `{C : Collaborators}.
Implicit Types (st : state) (d : odict DataFrame) (e : exn).

Lemma read_loop_app pre post d st :
  read_loop (pre ++ post) d st =
  match read_loop pre d st with
  | (Ok d', st') => read_loop post d' st'
  | (Raise e, st') => (Raise e, st')
  end.
Proof.
  revert d st. induction pre as [|spec pre IH]; intros d st; [done|].
  simpl. unfold mbind, M_bind, logger_info, ReaderFactory_get_data, lift.
  simpl. destruct (reader spec (world st)) as [[df|e] w]; [|done].
  destruct (od_setitem d (input_spec_id spec) df) as [d'|e]; [|done].
  apply IH.
Qed.

Lemma reader_calls_app tr1 tr2 :
  reader_calls (tr1 ++ tr2) = reader_calls tr1 ++ reader_calls tr2.
Proof.
  induction tr1 as [|[| |spec r|] tr1 IH]; simpl; by rewrite ?IH.
Qed.

Lemma writer_calls_app tr1 tr2 :
  writer_calls (tr1 ++ tr2) = writer_calls tr1 ++ writer_calls tr2.
Proof.
  induction tr1 as [|[| | |spec df data r] tr1 IH]; simpl; by rewrite ?IH.
Qed.

Lemma reads_length specs w dfs w' :
  reads specs w dfs w' → length dfs = length specs.
Proof. induction 1; simpl; congruence. Qed.

Lemma reader_calls_read_events specs dfs :
  length dfs = length specs → reader_calls (read_events specs dfs) = specs.
Proof.
  revert dfs. induction specs as [|s specs IH]; intros [|df dfs]; simpl;
    try done.
  intros [= Hlen]. by rewrite IH.
Qed.

Lemma writer_calls_read_events specs dfs :
  writer_calls (read_events specs dfs) = [].
Proof.
  revert dfs. induction specs as [|s specs IH]; intros [|df dfs]; simpl; auto.
Qed.

Lemma read_events_no_start_write specs dfs :
  LogInfo StartingWrite ∉ read_events specs dfs.
Proof.
  revert dfs. induction specs as [|s specs IH]; intros [|df dfs]; simpl;
    try apply not_elem_of_nil.
  rewrite !not_elem_of_cons. split_and!; [done..|apply IH].
Qed.

(** A read stage in which every call returns and every identifier is
    hashable: the registry is the one the items build, in their order. *)
Lemma read_loop_reads specs ks dfs d w tr w' :
  hashed_ids specs ks →
  reads specs w dfs w' →
  read_loop specs d {| world := w; trace := tr |} =
  (Ok (od_update d (zip ks dfs)),
   {| world := w'; trace := tr ++ read_events specs dfs |}).
Proof.
  unfold hashed_ids. intros Hks Hreads. revert ks d tr Hks.
  induction Hreads as [w|spec specs w df w1 dfs w2 Hcall _ IH];
    intros ks d tr Hks.
  - apply Forall2_nil_inv_l in Hks as ->. simpl. by rewrite app_nil_r.
  - apply Forall2_cons_inv_l in Hks as (k & ks' & Hk & Hks' & ->).
    simpl. unfold mbind, M_bind, logger_info, ReaderFactory_get_data, lift.
    simpl. rewrite Hcall. unfold od_setitem. rewrite Hk.
    rewrite (IH ks' _ _ Hks'). by rewrite <- !app_assoc.
Qed.

(** C2: when the identifiers of the input specifications are pairwise
    distinct and the reader returns for every one of them, [read] returns
    the registry that has, in the order of declaration, one entry per
    specification: its key is the identifier of the specification and its
    value the data frame the reader returned for it.  The reader was called
    once per specification. *)
Theorem read_distinct_ids (self : DataLoader) st ks dfs w' :
  hashed_ids (input_specs self) ks →
  NoDup ks →
  reads (input_specs self) (world st) dfs w' →
  read self st =
    (Ok (zip ks dfs),
     {| world := w';
        trace := trace st ++ read_events (input_specs self) dfs |})
  ∧ length (zip ks dfs) = length (input_specs self)
  ∧ od_keys (zip ks dfs) = ks
  ∧ reader_calls (read_events (input_specs self) dfs) = input_specs self.
Proof.
  intros Hks Hnd Hreads.
  pose proof (Forall2_length _ _ _ Hks) as Hlen1.
  pose proof (reads_length _ _ _ _ Hreads) as Hlen2.
  assert (od_keys (zip ks dfs) = ks) as Hkeys.
  { unfold od_keys. apply fst_zip. lia. }
  split_and!.
  - destruct st as [w tr]. unfold read.
    rewrite (read_loop_reads _ ks dfs [] w tr w' Hks Hreads).
    rewrite od_update_distinct; [done|]. simpl. by rewrite Hkeys.
  - rewrite length_zip. lia.
  - done.
  - by apply reader_calls_read_events.
Qed.

(** C3: when two input specifications have the same identifier (and the
    reader returns for every specification), the registry that [read]
    returns holds under that identifier the data frame read for the one
    declared last, and it has fewer entries than there are input
    specifications. *)
Theorem read_shared_id (self : DataLoader) st ks dfs w' i j k :
  hashed_ids (input_specs self) ks →
  reads (input_specs self) (world st) dfs w' →
  i < j →
  ks !! i = Some k →
  ks !! j = Some k →
  (∀ j', j < j' → ks !! j' ≠ Some k) →
  ∃ r df st',
    read self st = (Ok r, st')
    ∧ dfs !! j = Some df
    ∧ od_get k r = Some df
    ∧ length r < length (input_specs self).
Proof.
  intros Hks Hreads Hij Hi Hj Hlast.
  pose proof (Forall2_length _ _ _ Hks) as Hlen1.
  pose proof (reads_length _ _ _ _ Hreads) as Hlen2.
  assert (od_keys (zip ks dfs) = ks) as Hkeys.
  { unfold od_keys. apply fst_zip. lia. }
  destruct (lookup_lt_is_Some_2 dfs j) as [df Hdf].
  { apply lookup_lt_Some in Hj. lia. }
  destruct st as [w tr]. unfold read.
  rewrite (read_loop_reads _ ks dfs [] w tr w' Hks Hreads).
  eexists _, df, _. split_and!; [done|done| |].
  - rewrite od_get_update.
    rewrite (od_get_reverse_last (zip ks dfs) j k df); [done| |].
    + apply lookup_zip_with_Some. eauto.
    + by rewrite Hkeys.
  - pose proof (od_update_length_dup [] (zip ks dfs) i j k Hij) as Hlt.
    rewrite Hkeys, length_zip in Hlt. specialize (Hlt Hi Hj). simpl in Hlt.
    lia.
Qed.

(** C4: when the reader raises on an input specification (having returned
    for the ones declared before it), [read] raises the same exception and
    returns no registry; the reader is not called for the specifications
    declared after it; and [execute] raises the same exception without
    entering the write stage: no message that the write stage starts, no
    call of the writer. *)
Theorem read_fails_fast (self : DataLoader) st pre spec post ks dfs w1 e w2 :
  input_specs self = pre ++ spec :: post →
  hashed_ids pre ks →
  reads pre (world st) dfs w1 →
  reader spec w1 = (Raise e, w2) →
  let stage :=
    read_events pre dfs ++ [LogInfo (FoundInput spec); ReaderCall spec (Raise e)]
  in
  read self st = (Raise e, {| world := w2; trace := trace st ++ stage |})
  ∧ execute self st =
      (Raise e,
       {| world := w2; trace := trace st ++ LogInfo StartingRead :: stage |})
  ∧ reader_calls stage = pre ++ [spec]
  ∧ writer_calls (LogInfo StartingRead :: stage) = []
  ∧ LogInfo StartingWrite ∉ LogInfo StartingRead :: stage.
Proof.
  intros Hspecs Hks Hreads Hfail stage.
  assert (∀ tr, read self {| world := world st; trace := tr |} =
                (Raise e, {| world := w2; trace := tr ++ stage |})) as Hread.
  { intros tr. unfold read. rewrite Hspecs, read_loop_app.
    rewrite (read_loop_reads _ ks dfs [] _ tr w1 Hks Hreads).
    simpl. unfold mbind, M_bind, logger_info, ReaderFactory_get_data.
    simpl. rewrite Hfail. unfold stage. by rewrite <- !app_assoc. }
  split_and!.
  - destruct st as [w tr]. apply Hread.
  - unfold execute, try_except, mbind, M_bind, logger_info, emit, raise.
    simpl. rewrite Hread. by rewrite <- !app_assoc.
  - unfold stage. rewrite reader_calls_app, reader_calls_read_events; [done|].
    by eapply reads_length.
  - unfold stage. simpl. by rewrite writer_calls_app, writer_calls_read_events.
  - unfold stage. rewrite not_elem_of_cons, not_elem_of_app.
    split_and!; [done|apply read_events_no_start_write|].
    rewrite !not_elem_of_cons. split_and!; [done..|apply not_elem_of_nil].
Qed.

End read_facts.

(** *** Facts about the write stage *)

Section write_facts.
Context `{C : Collaborators}.
Implicit Types (st : state) (d data acc r : odict DataFrame) (e : exn).
Implicit Types (spec : OutputSpec) (out : option (odict DataFrame)).

Lemma write_loop_app pre post data acc st :
  write_loop (pre ++ post) data acc st =
  match write_loop pre data acc st with
  | (Ok acc', st') => write_loop post data acc' st'
  | (Raise e, st') => (Raise e, st')
  end.
Proof.
  revert acc st. induction pre as [|spec pre IH]; intros acc st; [done|].
  simpl. unfold mbind, M_bind, logger_info, WriterFactory_write, lift.
  simpl. destruct (od_getitem data (input_id spec)) as [df|e]; [|done].
  destruct (writer spec df data (world st)) as [[out|e] w]; [|done].
  destruct (store_output spec data acc out) as [acc'|e]; [|done].
  apply IH.
Qed.

(** A write stage that returns has called the writer once for each
    specification, in the order of declaration. *)
Lemma write_loop_ok_calls specs data acc st r st' :
  write_loop specs data acc st = (Ok r, st') →
  writer_calls (trace st') = writer_calls (trace st) ++ specs.
Proof.
  revert acc st. induction specs as [|spec specs IH]; intros acc st.
  - simpl. intros [= _ <-]. by rewrite app_nil_r.
  - simpl. unfold mbind, M_bind, logger_info, WriterFactory_write, lift.
    simpl. destruct (od_getitem data (input_id spec)) as [df|e]; [|done].
    destruct (writer spec df data (world st)) as [[out|e] w]; [|done].
    destruct (store_output spec data acc out) as [acc'|e]; [|done].
    intros Hrest. apply IH in Hrest. rewrite Hrest. simpl.
    rewrite !writer_calls_app. simpl. by rewrite <- !app_assoc.
Qed.

Lemma store_output_stored spec data acc out r :
  store_output spec data acc out = Ok r →
  r = od_update acc (stored data spec out).
Proof.
  unfold store_output, stored. destruct (truthy out).
  - by intros [= <-].
  - unfold mbind, result_bind, od_setitem.
    destruct (od_getitem data (input_id spec)) as [df|e]; [|done].
    destruct (py_hash (spec_id spec)) as [k|]; [|done].
    by intros [= <-].
Qed.

Lemma stored_keys data spec out k :
  k ∈ od_keys (stored data spec out) → k ∈ written_keys spec out.
Proof.
  unfold stored, written_keys. destruct (truthy out); [done|].
  destruct (od_getitem data (input_id spec)) as [df|e];
    destruct (py_hash (spec_id spec)) as [k'|]; simpl; try done.
  intros Hin. by apply elem_of_nil in Hin.
Qed.

Lemma stores_app data pre post outs1 outs2 :
  length outs1 = length pre →
  stores data (pre ++ post) (outs1 ++ outs2) =
  stores data pre outs1 ++ stores data post outs2.
Proof.
  revert outs1. induction pre as [|spec pre IH]; intros [|out outs1]; simpl;
    try done.
  intros [= Hlen]. by rewrite IH, <- app_assoc.
Qed.

Lemma stores_keys data specs outs k :
  k ∈ od_keys (stores data specs outs) →
  ∃ j spec out,
    specs !! j = Some spec ∧ outs !! j = Some out ∧ k ∈ written_keys spec out.
Proof.
  revert outs. induction specs as [|spec specs IH]; intros [|out outs]; simpl;
    try (intros Hin; by apply elem_of_nil in Hin).
  unfold od_keys. rewrite fmap_app, elem_of_app. intros [Hin|Hin].
  - exists 0, spec, out. split_and!; [done..|]. by eapply stored_keys.
  - apply IH in Hin as (j & spec' & out' & ? & ? & ?).
    by exists (S j), spec', out'.
Qed.

Lemma writes_length data specs w outs w' :
  writes data specs w outs w' → length outs = length specs.
Proof. induction 1; simpl; congruence. Qed.

(** The registry of a write stage that returns is built from the items
    that the specifications store, in the order of declaration. *)
Lemma write_loop_writes data specs w outs w' acc tr r st' :
  writes data specs w outs w' →
  write_loop specs data acc {| world := w; trace := tr |} = (Ok r, st') →
  r = od_update acc (stores data specs outs) ∧ world st' = w'.
Proof.
  intros Hwrites. revert acc tr.
  induction Hwrites as [w|spec specs w df out w1 outs w2 Hget Hcall _ IH];
    intros acc tr.
  - simpl. by intros [= <- <-].
  - simpl. unfold mbind, M_bind, logger_info, WriterFactory_write, lift.
    simpl. rewrite Hget, Hcall.
    destruct (store_output spec data acc out) as [acc'|e] eqn:Hstore; [|done].
    intros Hrest. apply IH in Hrest as [-> ?]. split; [|done].
    apply store_output_stored in Hstore as ->. by rewrite od_update_app.
Qed.

Lemma writes_app_inv data pre spec post w outs1 out outs2 w' :
  writes data (pre ++ spec :: post) w (outs1 ++ out :: outs2) w' →
  length outs1 = length pre →
  ∃ df w1 w2,
    writes data pre w outs1 w1
    ∧ od_getitem data (input_id spec) = Ok df
    ∧ writer spec df data w1 = (Ok out, w2)
    ∧ writes data post w2 outs2 w'.
Proof.
  revert w outs1. induction pre as [|spec0 pre IH]; intros w [|out0 outs1];
    simpl; try done.
  - inversion 1; subst. intros _. eexists _, _, _. split_and!; eauto.
    constructor.
  - inversion 1; subst. intros [= Hlen].
    edestruct IH as (df' & w1' & w2' & ? & ? & ? & ?); [done..|].
    eexists _, _, _. split_and!; eauto. by econstructor.
Qed.

(** The registry of a write stage, around the specification at one
    position. *)
Lemma write_ok_stores (self : DataLoader) data st pre spec post
    outs1 out outs2 w' r st' :
  output_specs self = pre ++ spec :: post →
  writes data (output_specs self) (world st) (outs1 ++ out :: outs2) w' →
  length outs1 = length pre →
  write self data st = (Ok r, st') →
  r = od_update [] (stores data pre outs1 ++ stored data spec out
                    ++ stores data post outs2).
Proof.
  intros Hspecs Hwrites Hlen Hwrite. destruct st as [w tr].
  unfold write in Hwrite.
  destruct (write_loop_writes _ _ _ _ _ _ _ _ _ Hwrites Hwrite) as [-> _].
  rewrite Hspecs. by rewrite stores_app.
Qed.

(** C1: when [write] reaches an output specification whose [input_id] is
    not a key of the registry it was given (the specifications declared
    before it having been written), it raises the [KeyError] of the lookup;
    the writer has been called for the specifications declared before it
    and is called neither for this one nor for a later one. *)
Theorem write_missing_input_id (self : DataLoader) data st pre spec post k
    written st1 :
  output_specs self = pre ++ spec :: post →
  py_hash (input_id spec) = Some k →
  od_get k data = None →
  write_loop pre data [] st = (Ok written, st1) →
  write self data st =
    (Raise (KeyError k), emit (LogInfo (FoundOutput spec)) st1)
  ∧ writer_calls (trace (emit (LogInfo (FoundOutput spec)) st1)) =
      writer_calls (trace st) ++ pre.
Proof.
  intros Hspecs Hk Hget Hpre. split.
  - unfold write. rewrite Hspecs, write_loop_app, Hpre. simpl.
    unfold mbind, M_bind, logger_info, lift, od_getitem. simpl.
    by rewrite Hk, Hget.
  - simpl. rewrite writer_calls_app. simpl. rewrite app_nil_r.
    by eapply write_loop_ok_calls.
Qed.

(** C5, as amended: for an output specification for which the writer
    returns no mapping, the registry returned by [write] has an entry under
    the identifier of the specification; its value is the very data frame
    found in the input registry under [input_id], unless an output
    specification declared later writes the same key, be it through the
    mapping of its writer or through its own identifier. *)
Theorem passthrough_entry (self : DataLoader) data st pre spec post
    outs1 outs2 w' r st' k :
  output_specs self = pre ++ spec :: post →
  writes data (output_specs self) (world st) (outs1 ++ None :: outs2) w' →
  length outs1 = length pre →
  write self data st = (Ok r, st') →
  py_hash (spec_id spec) = Some k →
  ∃ df,
    od_getitem data (input_id spec) = Ok df
    ∧ is_Some (od_get k r)
    ∧ ((∀ j spec' out', post !! j = Some spec' → outs2 !! j = Some out' →
                        k ∉ written_keys spec' out') →
       od_get k r = Some df).
Proof.
  intros Hspecs Hwrites Hlen Hwrite Hk.
  pose proof (write_ok_stores _ _ _ _ _ _ _ _ _ _ _ _
                Hspecs Hwrites Hlen Hwrite) as ->.
  rewrite Hspecs in Hwrites.
  apply writes_app_inv in Hwrites as (df & w1 & w2 & _ & Hget & _ & _);
    [|done].
  assert (stored data spec None = [(k, df)]) as ->.
  { unfold stored. simpl. by rewrite Hget, Hk. }
  exists df. split_and!; [done| |].
  - apply od_get_update_is_Some. unfold od_keys.
    rewrite !fmap_app, !elem_of_app. right; left. simpl. left.
  - intros Hlater. apply od_get_update_mid.
    + simpl. apply NoDup_singleton.
    + left.
    + intros Hin. apply stores_keys in Hin as (j & spec' & out' & ? & ? & ?).
      by eapply Hlater.
Qed.

(** C6, as amended: for an output specification for which the writer
    returns a non-empty mapping, every key of the mapping is a key of the
    registry returned by [write]; the registry holds the value of the
    mapping under that key unless an output specification declared later
    writes the same key, through the mapping of its writer or through its
    own identifier.  So of two mappings with a common key the one of the
    specification declared later gives the value, when no specification
    after it writes the key. *)
Theorem merged_entry (self : DataLoader) data st pre spec post
    outs1 m outs2 w' r st' k v :
  output_specs self = pre ++ spec :: post →
  writes data (output_specs self) (world st) (outs1 ++ Some m :: outs2) w' →
  length outs1 = length pre →
  write self data st = (Ok r, st') →
  m ≠ [] →
  NoDup (od_keys m) →
  (k, v) ∈ m →
  is_Some (od_get k r)
  ∧ ((∀ j spec' out', post !! j = Some spec' → outs2 !! j = Some out' →
                      k ∉ written_keys spec' out') →
     od_get k r = Some v).
Proof.
  intros Hspecs Hwrites Hlen Hwrite Hm Hnd Hin.
  pose proof (write_ok_stores _ _ _ _ _ _ _ _ _ _ _ _
                Hspecs Hwrites Hlen Hwrite) as ->.
  assert (stored data spec (Some m) = m) as ->.
  { unfold stored. by destruct m. }
  split.
  - apply od_get_update_is_Some. unfold od_keys.
    rewrite !fmap_app, !elem_of_app. right; left.
    by apply (list_elem_of_fmap_2 fst) in Hin.
  - intros Hlater. apply od_get_update_mid; [done..|].
    intros Hk. apply stores_keys in Hk as (j & spec' & out' & ? & ? & ?).
    by eapply Hlater.
Qed.

(** C10: an empty mapping returned by the writer is treated as no mapping:
    the loop body does the same as for [None].  Nothing is merged: the
    registry of written data frames it leaves holds, under the identifier
    of the specification, the data frame found under [input_id] in the
    registry given to [write], and under every other key what it held
    before.  The loop goes on from that registry. *)
Theorem empty_mapping_is_passthrough spec rest data acc st df w1 k :
  od_getitem data (input_id spec) = Ok df →
  writer spec df data (world st) = (Ok (Some []), w1) →
  py_hash (spec_id spec) = Some k →
  store_output spec data acc (Some []) = store_output spec data acc None
  ∧ store_output spec data acc (Some []) = Ok (od_set k df acc)
  ∧ write_loop (spec :: rest) data acc st =
      write_loop rest data (od_set k df acc)
        {| world := w1;
           trace := trace st ++ [LogInfo (FoundOutput spec);
                                 WriterCall spec df data (Ok (Some []))] |}
  ∧ ∃ r,
      store_output spec data acc (Some []) = Ok r
      ∧ od_get k r = Some df
      ∧ (∀ k', k' ≠ k → od_get k' r = od_get k' acc)
      ∧ length r =
          match od_get k acc with
          | Some _ => length acc
          | None => S (length acc)
          end.
Proof.
  intros Hget Hcall Hk.
  assert (store_output spec data acc (Some []) = Ok (od_set k df acc)) as Hst.
  { unfold store_output, mbind, result_bind, od_setitem. simpl.
    by rewrite Hget, Hk. }
  split_and!; [done|done| |].
  - simpl. unfold mbind, M_bind, logger_info, WriterFactory_write, lift.
    simpl. rewrite Hget, Hcall, Hst. by rewrite <- !app_assoc.
  - exists (od_set k df acc). split_and!.
    + done.
    + apply od_get_set_eq.
    + intros k' Hne. by apply od_get_set_ne.
    + apply od_set_length.
Qed.

End write_facts.

(** *** Facts about construction and [execute] *)

Section construct_facts.
Context `{C : Collaborators}.

Lemma comprehension_Forall2 {A B : Type} (f : A → result B) l l' :
  comprehension f l = Ok l' → Forall2 (λ x y, f x = Ok y) l l'.
Proof.
  revert l'. induction l as [|x l IH]; intros l'; simpl.
  - intros [= <-]. constructor.
  - unfold mbind, result_bind, mret, result_ret.
    destruct (f x) as [y|e] eqn:Hx; [|done].
    destruct (comprehension f l) as [ys|e]; [|done].
    intros [= <-]. constructor; auto.
Qed.

(** An entry that has a [spec_id] and an [input_id] gives an output
    specification, with the values of the entry and the defaults. *)
Lemma output_spec_of_dict d sid iid :
  dict_lookup "spec_id" d = Some sid →
  dict_lookup "input_id" d = Some iid →
  output_spec_of (PyDict d) =
  Ok {| spec_id := sid;
        input_id := iid;
        write_type := dict_get d "write_type" PyNone;
        data_format := dict_get d "data_format" DELTAFILES;
        db_table := dict_get d "db_table" PyNone;
        location := dict_get d "location" PyNone;
        partitions := dict_get d "partitions" (PyList []) |}.
Proof.
  intros Hsid Hiid. unfold output_spec_of, dict_getitem.
  by rewrite Hsid, Hiid.
Qed.

Lemma output_spec_of_defaults entry spec :
  output_spec_of entry = Ok spec →
  ∃ d, entry = PyDict d
       ∧ (dict_lookup "data_format" d = None → data_format spec = DELTAFILES)
       ∧ (dict_lookup "partitions" d = None → partitions spec = PyList []).
Proof.
  destruct entry as [| | | | |d]; try done. simpl.
  unfold mbind, result_bind, mret, result_ret.
  destruct (dict_getitem d "spec_id") as [sid|e]; [|done].
  destruct (dict_getitem d "input_id") as [iid|e]; [|done].
  intros [= <-]. exists d. simpl. unfold dict_get.
  split_and!; [done|by intros ->..].
Qed.

(** C7: in the list that [_get_output_specs] builds, the specification of
    an entry without [data_format] has the value of
    [OutputFormat.DELTAFILES] as its data format, and the specification of
    an entry without [partitions] has the empty list as its partitions. *)
Theorem output_spec_defaults acon specs :
  _get_output_specs acon = Ok specs →
  ∃ entries,
    (dict_getitem acon "output_specs" ≫= py_iter) = Ok entries
    ∧ Forall2 (λ entry spec,
        ∃ d, entry = PyDict d
             ∧ (dict_lookup "data_format" d = None →
                data_format spec = DELTAFILES)
             ∧ (dict_lookup "partitions" d = None →
                partitions spec = PyList []))
        entries specs.
Proof.
  unfold _get_output_specs, mbind, result_bind.
  destruct (dict_getitem acon "output_specs") as [v|e]; [|done].
  destruct (py_iter v) as [entries|e]; [|done].
  intros Hspecs. exists entries. split; [done|].
  apply comprehension_Forall2 in Hspecs.
  eapply Forall2_impl; [exact Hspecs|]. apply output_spec_of_defaults.
Qed.

(** C8: for an ACON without the key [input_specs], [_get_input_specs]
    raises the [KeyError] of that key, and for one without the key
    [output_specs], [_get_output_specs] raises the [KeyError] of that key.
    In both cases no [DataLoader] is constructed, and a run ends with the
    exception of the construction in the state it started in: nothing was
    read or written.  The exception is the one of the input
    specifications if their construction raises, which comes first, and
    otherwise the [KeyError] of [output_specs]. *)
Theorem missing_collection acon :
  dict_lookup "input_specs" acon = None
  ∨ dict_lookup "output_specs" acon = None →
  (dict_lookup "input_specs" acon = None →
   _get_input_specs acon = Raise (KeyError (KStr "input_specs")))
  ∧ (dict_lookup "output_specs" acon = None →
     _get_output_specs acon = Raise (KeyError (KStr "output_specs")))
  ∧ ∃ e,
      DataLoader_init acon = Raise e
      ∧ (∀ st, run acon st = (Raise e, st))
      ∧ match _get_input_specs acon with
        | Raise e' => e = e'
        | Ok _ => e = KeyError (KStr "output_specs")
        end.
Proof.
  intros Hmissing.
  assert (dict_lookup "input_specs" acon = None →
          _get_input_specs acon = Raise (KeyError (KStr "input_specs")))
    as Hin.
  { intros H. unfold _get_input_specs, dict_getitem. by rewrite H. }
  assert (dict_lookup "output_specs" acon = None →
          _get_output_specs acon = Raise (KeyError (KStr "output_specs")))
    as Hout.
  { intros H. unfold _get_output_specs, dict_getitem. by rewrite H. }
  split_and!; [done..|].
  unfold run, DataLoader_init, lift, mbind, M_bind, result_bind.
  destruct (_get_input_specs acon) as [ins|e] eqn:Hins.
  - destruct Hmissing as [H|H]; [by specialize (Hin H)|].
    rewrite (Hout H). by eexists.
  - by eexists.
Qed.

(** C9: [execute] runs [read] and then [write] on the registry that [read]
    returned.  An exception of [read] or of [write] is the exception of
    [execute], in the state in which it was raised; otherwise [execute]
    returns the registry that [write] returned. *)
Theorem execute_sequence (self : DataLoader) (st : state) :
  execute self st =
  match read self (emit (LogInfo StartingRead) st) with
  | (Raise e, st1) => (Raise e, st1)
  | (Ok read_dfs, st1) =>
      match write self read_dfs
              (emit (LogInfo StartingWrite) (emit (Printed read_dfs) st1)) with
      | (Raise e, st2) => (Raise e, st2)
      | (Ok written_dfs, st2) =>
          (Ok written_dfs, emit (LogInfo Finished) st2)
      end
  end.
Proof.
  unfold execute, try_except, raise, mbind, M_bind, logger_info, print.
  simpl.
  destruct (read self (emit (LogInfo StartingRead) st))
    as [[read_dfs|e] st1]; [|done].
  by destruct (write self read_dfs _) as [[written_dfs|e] st2].
Qed.

End construct_facts.

(** ** The theorems at work on the small back end *)

Lemma write_missing_input_id_witness :
  let o1 := Demo.out "o1" "a" PyNone in
  let o2 := Demo.out "o2" "missing" PyNone in
  let o3 := Demo.out "o3" "b" PyNone in
  let st1 := snd (write_loop [o1] Demo.data_ab [] Demo.after_read) in
  write (Demo.loader [] [o1; o2; o3]) Demo.data_ab Demo.after_read =
    (Raise (KeyError (KStr "missing")), emit (LogInfo (FoundOutput o2)) st1)
  ∧ writer_calls (trace (emit (LogInfo (FoundOutput o2)) st1)) = [] ++ [o1].
Proof.
  intros o1 o2 o3 st1.
  apply (write_missing_input_id (Demo.loader [] [o1; o2; o3]) Demo.data_ab
           Demo.after_read [o1] o2 [o3] (KStr "missing") [(KStr "o1", 0)] st1);
    reflexivity.
Defined.

Lemma read_distinct_ids_witness :
  let self := Demo.loader [Demo.in_a; Demo.in_b] [] in
  let ks := [KStr "a"; KStr "b"] in
  let dfs := [0; 1] in
  read self Demo.start =
    (Ok (zip ks dfs),
     {| world := 2;
        trace := [] ++ read_events [Demo.in_a; Demo.in_b] dfs |})
  ∧ length (zip ks dfs) = 2
  ∧ od_keys (zip ks dfs) = ks
  ∧ reader_calls (read_events [Demo.in_a; Demo.in_b] dfs)
    = [Demo.in_a; Demo.in_b].
Proof.
  intros self ks dfs.
  apply (read_distinct_ids self Demo.start ks dfs 2).
  - repeat constructor.
  - apply (bool_decide_unpack _). vm_compute. exact I.
  - repeat econstructor.
Defined.

Lemma read_shared_id_witness :
  let self := Demo.loader [Demo.in_a; Demo.in_b; Demo.in_a] [] in
  ∃ r df st',
    read self Demo.start = (Ok r, st')
    ∧ [0; 1; 2] !! 2 = Some df
    ∧ od_get (KStr "a") r = Some df
    ∧ length r < 3.
Proof.
  intros self.
  apply (read_shared_id self Demo.start [KStr "a"; KStr "b"; KStr "a"]
           [0; 1; 2] 3 0 2 (KStr "a")).
  - repeat constructor.
  - repeat econstructor.
  - lia.
  - reflexivity.
  - reflexivity.
  - intros [|[|[|j']]] Hj'; simpl; try lia; discriminate.
Defined.

Lemma read_fails_fast_witness :
  let self := Demo.loader [Demo.in_a; Demo.in_missing; Demo.in_b] [] in
  let e := OtherError "FileNotFoundError" in
  let stage :=
    read_events [Demo.in_a] [0]
    ++ [LogInfo (FoundInput Demo.in_missing);
        ReaderCall Demo.in_missing (Raise e)] in
  read self Demo.start = (Raise e, {| world := 1; trace := [] ++ stage |})
  ∧ execute self Demo.start =
      (Raise e,
       {| world := 1; trace := [] ++ LogInfo StartingRead :: stage |})
  ∧ reader_calls stage = [Demo.in_a] ++ [Demo.in_missing]
  ∧ writer_calls (LogInfo StartingRead :: stage) = []
  ∧ LogInfo StartingWrite ∉ LogInfo StartingRead :: stage.
Proof.
  intros self e stage.
  apply (read_fails_fast self Demo.start [Demo.in_a] Demo.in_missing
           [Demo.in_b] [KStr "a"] [0] 1 e 1).
  - reflexivity.
  - repeat constructor.
  - repeat econstructor.
  - reflexivity.
Defined.

Lemma passthrough_entry_witness :
  let o1 := Demo.out "o1" "a" PyNone in
  let o2 := Demo.out "o2" "b" PyNone in
  let r := [(KStr "o1", 0); (KStr "o2", 1)] in
  writes Demo.data_ab [o1; o2] 2 [None; None] 2
  ∧ fst (write (Demo.loader [] [o1; o2]) Demo.data_ab Demo.after_read) = Ok r
  ∧ od_getitem Demo.data_ab (input_id o1) = Ok 0
  ∧ od_get (KStr "o1") r = Some 0.
Proof.
  intros o1 o2 r.
  assert (writes Demo.data_ab [o1; o2] 2 [None; None] 2) as Hwrites.
  { repeat econstructor. }
  destruct (passthrough_entry (Demo.loader [] [o1; o2]) Demo.data_ab
              Demo.after_read [] o1 [o2] [] [None] 2 r
              (snd (write (Demo.loader [] [o1; o2]) Demo.data_ab
                      Demo.after_read))
              (KStr "o1") eq_refl Hwrites eq_refl eq_refl eq_refl)
    as (df & Hget & _ & Hkeep).
  split_and!; [exact Hwrites|reflexivity|reflexivity|].
  injection Hget as <-. apply Hkeep.
  intros [|j] spec' out' [= <-] [= <-].
  change (KStr "o1" ∉ [KStr "o2"]).
  rewrite list_elem_of_singleton. discriminate.
Defined.

(** C5, as stated, fails: the writer returns nothing for [o1], whose input
    is the data frame [0], and for [o2] a mapping with the key ["o1"]; the
    registry that [write] returns holds the data frame [2] of that mapping
    under ["o1"]. *)
Lemma passthrough_entry_overwritten :
  let o1 := Demo.out "o1" "a" PyNone in
  let o2 := Demo.out "o2" "b" (PyStr "o1") in
  let r := [(KStr "o1", 2)] in
  writes Demo.data_ab [o1; o2] 2 [None; Some [(KStr "o1", 2)]] 3
  ∧ fst (write (Demo.loader [] [o1; o2]) Demo.data_ab Demo.after_read) = Ok r
  ∧ od_getitem Demo.data_ab (input_id o1) = Ok 0
  ∧ py_hash (spec_id o1) = Some (KStr "o1")
  ∧ od_get (KStr "o1") r ≠ Some 0.
Proof.
  intros o1 o2 r. split_and!; [repeat econstructor|reflexivity..|].
  vm_compute. discriminate.
Qed.

Lemma merged_entry_witness :
  let o1 := Demo.out "o1" "a" (PyStr "shared") in
  let o2 := Demo.out "o2" "b" (PyStr "shared") in
  let r := [(KStr "shared", 3)] in
  writes Demo.data_ab [o1; o2] 2
    [Some [(KStr "shared", 2)]; Some [(KStr "shared", 3)]] 4
  ∧ fst (write (Demo.loader [] [o1; o2]) Demo.data_ab Demo.after_read) = Ok r
  ∧ is_Some (od_get (KStr "shared") r)
  ∧ od_get (KStr "shared") r = Some 3.
Proof.
  intros o1 o2 r.
  assert (writes Demo.data_ab [o1; o2] 2
            [Some [(KStr "shared", 2)]; Some [(KStr "shared", 3)]] 4)
    as Hwrites.
  { repeat econstructor. }
  assert ([(KStr "shared", 3)] ≠ ([] : odict nat)) as Hne by discriminate.
  destruct (merged_entry (Demo.loader [] [o1; o2]) Demo.data_ab
              Demo.after_read [o1] o2 [] [Some [(KStr "shared", 2)]]
              [(KStr "shared", 3)] [] 4 r
              (snd (write (Demo.loader [] [o1; o2]) Demo.data_ab
                      Demo.after_read))
              (KStr "shared") 3 eq_refl Hwrites eq_refl eq_refl Hne
              (NoDup_singleton _) (list_elem_of_here _ _))
    as [Hsome Hlast].
  split_and!; [exact Hwrites|reflexivity|exact Hsome|].
  apply Hlast. intros j spec' out' Hj. discriminate Hj.
Defined.

(** C6, as stated, fails: the writers of [o1] and [o2] return mappings with
    the key ["shared"], and [o3], declared last, has ["shared"] as its
    identifier and a writer that returns nothing.  The registry that
    [write] returns holds under ["shared"] the input of [o3]: neither entry
    of the two mappings is in it, and the value is not the one of [o2]. *)
Lemma merged_entry_overwritten :
  let o1 := Demo.out "o1" "a" (PyStr "shared") in
  let o2 := Demo.out "o2" "b" (PyStr "shared") in
  let o3 := Demo.out "shared" "a" PyNone in
  let r := [(KStr "shared", 0)] in
  writes Demo.data_ab [o1; o2; o3] 2
    [Some [(KStr "shared", 2)]; Some [(KStr "shared", 3)]; None] 4
  ∧ fst (write (Demo.loader [] [o1; o2; o3]) Demo.data_ab Demo.after_read)
    = Ok r
  ∧ ((KStr "shared", 2) ∉ r)
  ∧ ((KStr "shared", 3) ∉ r)
  ∧ od_get (KStr "shared") r ≠ Some 3.
Proof.
  intros o1 o2 o3 r. split_and!; [repeat econstructor|reflexivity|..].
  - unfold r. rewrite list_elem_of_singleton. discriminate.
  - unfold r. rewrite list_elem_of_singleton. discriminate.
  - vm_compute. discriminate.
Qed.

Lemma output_spec_defaults_witness :
  let acon := Demo.document [] [Demo.output "out1" "a"] in
  let spec := Demo.out "out1" "a" PyNone in
  _get_output_specs (C:=Demo.demo) acon = Ok [spec]
  ∧ data_format spec = DELTAFILES (Collaborators:=Demo.demo)
  ∧ partitions spec = PyList [].
Proof.
  intros acon spec.
  destruct (output_spec_defaults (C:=Demo.demo) acon [spec] eq_refl)
    as (entries & Hentries & Hall).
  change (Ok [Demo.output "out1" "a"] = Ok entries) in Hentries.
  injection Hentries as <-.
  apply Forall2_cons_1 in Hall as [(d & Hd & Hformat & Hparts) _].
  injection Hd as <-.
  split_and!; [reflexivity|apply Hformat|apply Hparts]; reflexivity.
Defined.

Lemma missing_collection_witness :
  let acon := [("input_specs", PyList [Demo.input "a"])] in
  dict_lookup "output_specs" acon = None
  ∧ _get_output_specs acon = Raise (KeyError (KStr "output_specs"))
  ∧ DataLoader_init acon = Raise (KeyError (KStr "output_specs"))
  ∧ run acon Demo.start = (Raise (KeyError (KStr "output_specs")), Demo.start).
Proof.
  intros acon.
  destruct (missing_collection acon (or_intror eq_refl))
    as (_ & Hout & e & Hinit & Hrun & He).
  simpl in He. subst e.
  split_and!; [reflexivity|exact (Hout eq_refl)|exact Hinit|apply Hrun].
Defined.

Lemma empty_mapping_is_passthrough_witness :
  let o1 := Demo.out_empty "o1" "a" in
  let o2 := Demo.out "o2" "b" PyNone in
  let acc := [(KStr "t", 7)] in
  store_output (C:=Demo.demo) o1 Demo.data_ab acc (Some [])
    = store_output (C:=Demo.demo) o1 Demo.data_ab acc None
  ∧ store_output (C:=Demo.demo) o1 Demo.data_ab acc (Some [])
    = Ok [(KStr "t", 7); (KStr "o1", 0)]
  ∧ write_loop (C:=Demo.demo) [o1; o2] Demo.data_ab acc Demo.after_read =
      write_loop (C:=Demo.demo) [o2] Demo.data_ab
        [(KStr "t", 7); (KStr "o1", 0)]
        {| world := 2;
           trace := [] ++ [LogInfo (FoundOutput o1);
                           WriterCall o1 0 Demo.data_ab (Ok (Some []))] |}
  ∧ ∃ r,
      store_output (C:=Demo.demo) o1 Demo.data_ab acc (Some []) = Ok r
      ∧ od_get (KStr "o1") r = Some 0
      ∧ (∀ k', k' ≠ KStr "o1" → od_get k' r = od_get k' acc)
      ∧ length r = 2.
Proof.
  intros o1 o2 acc.
  apply (empty_mapping_is_passthrough (C:=Demo.demo) o1 [o2] Demo.data_ab acc
           Demo.after_read 0 2 (KStr "o1")); reflexivity.
Defined.

(** ** The scenarios of the specification *)

(** Scenario A: one input ["a"], one output ["out1"] of it, a writer that
    returns nothing: [execute] returns the data frame read under ["out1"]. *)
Example scenario_A :
  fst (run (Demo.document [Demo.input "a"] [Demo.output "out1" "a"]) Demo.start)
  = Ok [(KStr "out1", 0)].
Proof. reflexivity. Qed.

(** Scenario B: the reader raises on the input: [execute] raises that
    exception and the writer is not called. *)
Example scenario_B :
  let acon :=
    Demo.document
      [PyDict [("spec_id", PyStr "a"); ("location", PyStr "/missing")]]
      [Demo.output "out1" "a"] in
  fst (run acon Demo.start) = Raise (OtherError "FileNotFoundError")
  ∧ writer_calls (trace (snd (run acon Demo.start))) = [].
Proof. split; reflexivity. Qed.

(** Scenario C: the output refers to an input that is not there: [write]
    raises the lookup error before any call of the writer. *)
Example scenario_C :
  let acon := Demo.document [Demo.input "a"] [Demo.output "out1" "missing"] in
  fst (run acon Demo.start) = Raise (KeyError (KStr "missing"))
  ∧ writer_calls (trace (snd (run acon Demo.start))) = [].
Proof. split; reflexivity. Qed.

(** Scenario D: two outputs whose writers return a mapping with the key
    ["shared"]: the registry holds the data frame of the second. *)
Example scenario_D :
  fst (run (Demo.document [Demo.input "a"]
              [Demo.output_table "o1" "a" "shared";
               Demo.output_table "o2" "a" "shared"]) Demo.start)
  = Ok [(KStr "shared", 2)].
Proof. reflexivity. Qed.

(** ** Further properties of the pipeline *)

(** *** More facts about ordered dictionaries *)

Section odict_keys_facts.
Context {V : Type}.
Implicit Types (k : hkey) (v : V) (d l : odict V).

Lemma od_keys_set k v d :
  od_keys (od_set k v d) =
  match od_get k d with Some _ => od_keys d | None => od_keys d ++ [k] end.
Proof.
  induction d as [|[k0 v0] d IH]; simpl; [done|].
  case_decide; subst; simpl; [done|].
  unfold od_keys in *. rewrite IH. by destruct (od_get k d).
Qed.

Lemma elem_of_od_keys_set k k' v d :
  k' ∈ od_keys (od_set k v d) ↔ k' = k ∨ k' ∈ od_keys d.
Proof.
  rewrite od_keys_set. destruct (od_get k d) as [v'|] eqn:Hget.
  - split; [auto|]. intros [->|]; [|done].
    destruct (decide (k ∈ od_keys d)) as [|Hn]; [done|].
    apply od_get_None in Hn. congruence.
  - rewrite elem_of_app, list_elem_of_singleton. tauto.
Qed.

Lemma NoDup_od_set k v d : NoDup (od_keys d) → NoDup (od_keys (od_set k v d)).
Proof.
  intros Hnd. rewrite od_keys_set.
  destruct (od_get k d) as [v'|] eqn:Hget; [done|].
  apply od_get_None in Hget. apply NoDup_app. split_and!; [done| |].
  - intros k' Hin. rewrite list_elem_of_singleton. by intros ->.
  - apply NoDup_singleton.
Qed.

Lemma NoDup_od_update d l : NoDup (od_keys d) → NoDup (od_keys (od_update d l)).
Proof.
  revert d. induction l as [|[k v] l IH]; intros d Hnd; [done|].
  rewrite od_update_cons. by apply IH, NoDup_od_set.
Qed.

Lemma elem_of_od_keys_update k d l :
  k ∈ od_keys (od_update d l) ↔ k ∈ od_keys d ∨ k ∈ od_keys l.
Proof.
  revert d. induction l as [|[k0 v0] l IH]; intros d.
  - simpl. split; [auto|]. intros [|Hin]; [done|].
    by apply elem_of_nil in Hin.
  - rewrite od_update_cons, IH, elem_of_od_keys_set. simpl.
    rewrite elem_of_cons. tauto.
Qed.

End odict_keys_facts.

(** *** The calls of the read stage *)

Section more_read_facts.
Context `{C : Collaborators}.
Implicit Types (st : state) (d : odict DataFrame) (e : exn).

(** A read stage that returns: every identifier was hashable, the reader
    returned for every specification, and the registry is built from the
    identifiers and the data frames in their order. *)
Lemma read_loop_ok_inv specs d st r st' :
  read_loop specs d st = (Ok r, st') →
  ∃ ks dfs,
    hashed_ids specs ks
    ∧ reads specs (world st) dfs (world st')
    ∧ r = od_update d (zip ks dfs).
Proof.
  revert d st. induction specs as [|spec specs IH]; intros d st.
  - simpl. intros [= <- <-]. exists [], []. split_and!; [constructor..|done].
  - simpl. unfold mbind, M_bind, logger_info, ReaderFactory_get_data, lift.
    simpl. destruct (reader spec (world st)) as [[df|e] w] eqn:Hcall; [|done].
    unfold od_setitem.
    destruct (py_hash (input_spec_id spec)) as [k|] eqn:Hk; [|done].
    intros Hrest. apply IH in Hrest as (ks & dfs & Hks & Hreads & ->).
    exists (k :: ks), (df :: dfs). split_and!.
    + by constructor.
    + by econstructor.
    + done.
Qed.

Lemma read_loop_trace specs d st :
  ∃ evs,
    trace (read_loop specs d st).2 = trace st ++ evs
    ∧ writer_calls evs = []
    ∧ reader_calls evs `prefix_of` specs
    ∧ (∀ r, (read_loop specs d st).1 = Ok r → reader_calls evs = specs).
Proof.
  revert d st. induction specs as [|spec specs IH]; intros d st.
  - exists []. simpl. rewrite app_nil_r. split_and!; done.
  - simpl. unfold mbind, M_bind, logger_info, ReaderFactory_get_data, lift.
    simpl. destruct (reader spec (world st)) as [[df|e] w].
    + destruct (od_setitem d (input_spec_id spec) df) as [d'|e].
      * destruct (IH d' {| world := w;
                           trace := (trace st ++ [LogInfo (FoundInput spec)])
                                    ++ [ReaderCall spec (Ok df)] |})
          as (evs & Htr & Hw & Hpre & Hall).
        exists (LogInfo (FoundInput spec) :: ReaderCall spec (Ok df) :: evs).
        split_and!.
        -- rewrite Htr. simpl. by rewrite <- !app_assoc.
        -- done.
        -- simpl. by apply prefix_cons.
        -- intros r Hr. simpl. f_equal. by eapply Hall.
      * exists [LogInfo (FoundInput spec); ReaderCall spec (Ok df)].
        simpl. rewrite <- !app_assoc.
        split_and!; [done|done| |done]. apply prefix_cons, prefix_nil.
    + exists [LogInfo (FoundInput spec); ReaderCall spec (Raise e)].
      simpl. rewrite <- !app_assoc.
      split_and!; [done|done| |done]. apply prefix_cons, prefix_nil.
Qed.

(** X1: whatever happens, [read] calls the reader for a beginning of the
    list of input specifications, once each and in the order of
    declaration, and never calls the writer; when it returns, it has called
    the reader for all of them. *)
Theorem read_calls_in_order (self : DataLoader) st :
  ∃ evs,
    trace (read self st).2 = trace st ++ evs
    ∧ writer_calls evs = []
    ∧ reader_calls evs `prefix_of` input_specs self
    ∧ (∀ r, (read self st).1 = Ok r → reader_calls evs = input_specs self).
Proof. apply read_loop_trace. Qed.

(** X2: the registry that [read] returns has no key twice, its keys are
    the identifiers of the input specifications, and it has at most as many
    entries as there are input specifications. *)
Theorem read_registry_keys (self : DataLoader) st r st' :
  read self st = (Ok r, st') →
  ∃ ks,
    hashed_ids (input_specs self) ks
    ∧ NoDup (od_keys r)
    ∧ (∀ k, k ∈ od_keys r ↔ k ∈ ks)
    ∧ length r ≤ length (input_specs self).
Proof.
  intros Hread. apply read_loop_ok_inv in Hread as (ks & dfs & Hks & Hreads & ->).
  pose proof (Forall2_length _ _ _ Hks) as Hlen1.
  pose proof (reads_length _ _ _ _ Hreads) as Hlen2.
  assert (od_keys (zip ks dfs) = ks) as Hkeys.
  { unfold od_keys. apply fst_zip. lia. }
  exists ks. split_and!; [done| | |].
  - apply NoDup_od_update. constructor.
  - intros k. rewrite elem_of_od_keys_update, Hkeys. simpl.
    split; [intros [Hin|]; [by apply elem_of_nil in Hin|done]|auto].
  - etrans; [apply od_update_length_le|]. rewrite length_zip. simpl. lia.
Qed.

End more_read_facts.

(** *** The calls and the registry of the write stage *)

Section more_write_facts.
Context `{C : Collaborators}.
Implicit Types (st : state) (d data acc r : odict DataFrame) (e : exn).
Implicit Types (spec : OutputSpec) (out : option (odict DataFrame)).

Lemma write_loop_trace specs data acc st :
  ∃ evs,
    trace (write_loop specs data acc st).2 = trace st ++ evs
    ∧ reader_calls evs = []
    ∧ writer_calls evs `prefix_of` specs
    ∧ (∀ r, (write_loop specs data acc st).1 = Ok r → writer_calls evs = specs)
    ∧ Forall (λ ev,
        match ev with
        | WriterCall spec df d _ =>
            d = data ∧ od_getitem data (input_id spec) = Ok df
        | _ => True
        end) evs.
Proof.
  revert acc st. induction specs as [|spec specs IH]; intros acc st.
  - exists []. simpl. rewrite app_nil_r. split_and!; done.
  - simpl. unfold mbind, M_bind, logger_info, WriterFactory_write, lift.
    simpl. destruct (od_getitem data (input_id spec)) as [df|e] eqn:Hget.
    + destruct (writer spec df data (world st)) as [[out|e] w].
      * destruct (store_output spec data acc out) as [acc'|e].
        -- destruct (IH acc' {| world := w;
                               trace := (trace st ++ [LogInfo (FoundOutput spec)])
                                        ++ [WriterCall spec df data (Ok out)] |})
             as (evs & Htr & Hr & Hpre & Hall & Hargs).
           exists (LogInfo (FoundOutput spec)
                   :: WriterCall spec df data (Ok out) :: evs).
           split_and!.
           ++ rewrite Htr. simpl. by rewrite <- !app_assoc.
           ++ done.
           ++ simpl. by apply prefix_cons.
           ++ intros r Hok. simpl. f_equal. by eapply Hall.
           ++ repeat constructor; done.
        -- exists [LogInfo (FoundOutput spec); WriterCall spec df data (Ok out)].
           simpl. rewrite <- !app_assoc.
           split_and!; [done|done| |done|repeat constructor; done].
           apply prefix_cons, prefix_nil.
      * exists [LogInfo (FoundOutput spec); WriterCall spec df data (Raise e)].
        simpl. rewrite <- !app_assoc.
        split_and!; [done|done| |done|repeat constructor; done].
        apply prefix_cons, prefix_nil.
    + exists [LogInfo (FoundOutput spec)]. simpl.
      split_and!; [done|done|apply prefix_nil|done|repeat constructor].
Qed.

(** X3: whatever happens, [write] calls the writer for a beginning of the
    list of output specifications, once each and in the order of
    declaration, and never calls the reader; when it returns, it has called
    the writer for all of them. *)
Theorem write_calls_in_order (self : DataLoader) data st :
  ∃ evs,
    trace (write self data st).2 = trace st ++ evs
    ∧ reader_calls evs = []
    ∧ writer_calls evs `prefix_of` output_specs self
    ∧ (∀ r, (write self data st).1 = Ok r →
            writer_calls evs = output_specs self).
Proof.
  destruct (write_loop_trace (output_specs self) data [] st)
    as (evs & ? & ? & ? & ? & _).
  by exists evs.
Qed.

(** X4: every call of the writer that [write] makes has as its arguments
    the specification, the data frame that the registry given to [write]
    holds under the [input_id] of the specification, and that registry
    itself, not the registry of what has been written. *)
Theorem write_call_arguments (self : DataLoader) data st :
  ∃ evs,
    trace (write self data st).2 = trace st ++ evs
    ∧ Forall (λ ev,
        match ev with
        | WriterCall spec df d _ =>
            d = data ∧ od_getitem data (input_id spec) = Ok df
        | _ => True
        end) evs.
Proof.
  destruct (write_loop_trace (output_specs self) data [] st)
    as (evs & ? & _ & _ & _ & ?).
  by exists evs.
Qed.

Lemma store_output_ok spec data acc out df :
  od_getitem data (input_id spec) = Ok df →
  (truthy out = false → is_Some (py_hash (spec_id spec))) →
  store_output spec data acc out = Ok (od_update acc (stored data spec out)).
Proof.
  intros Hget Hid. unfold store_output, stored.
  destruct (truthy out); [done|].
  destruct Hid as [k Hk]; [done|].
  unfold mbind, result_bind, od_setitem. by rewrite Hget, Hk.
Qed.

Lemma write_loop_returns data specs w outs w' acc tr :
  writes data specs w outs w' →
  Forall2 (λ spec out, truthy out = false → is_Some (py_hash (spec_id spec)))
    specs outs →
  ∃ evs,
    write_loop specs data acc {| world := w; trace := tr |} =
      (Ok (od_update acc (stores data specs outs)),
       {| world := w'; trace := tr ++ evs |})
    ∧ writer_calls evs = specs
    ∧ reader_calls evs = [].
Proof.
  intros Hwrites. revert acc tr.
  induction Hwrites as [w|spec specs w df out w1 outs w2 Hget Hcall _ IH];
    intros acc tr Hids.
  - exists []. simpl. by rewrite app_nil_r.
  - apply Forall2_cons_1 in Hids as [Hid Hids].
    simpl. unfold mbind, M_bind, logger_info, WriterFactory_write, lift.
    simpl. rewrite Hget, Hcall, (store_output_ok _ _ _ _ _ Hget Hid).
    destruct (IH (od_update acc (stored data spec out))
                ((tr ++ [LogInfo (FoundOutput spec)])
                 ++ [WriterCall spec df data (Ok out)]) Hids)
      as (evs & -> & Hw & Hr).
    exists (LogInfo (FoundOutput spec) :: WriterCall spec df data (Ok out)
            :: evs).
    split_and!.
    + by rewrite od_update_app, <- !app_assoc.
    + simpl. by rewrite Hw.
    + done.
Qed.

(** X5: [write] returns when every [input_id] is a key of the registry it
    is given, the writer returns for every output specification, and the
    identifier of every specification whose writer returns nothing or an
    empty mapping is hashable.  It then has called the writer once per
    specification, in order, and its registry is the one that the items
    stored for the specifications build in that order. *)
Theorem write_returns (self : DataLoader) data st outs w' :
  writes data (output_specs self) (world st) outs w' →
  Forall2 (λ spec out, truthy out = false → is_Some (py_hash (spec_id spec)))
    (output_specs self) outs →
  ∃ st',
    write self data st =
      (Ok (od_update [] (stores data (output_specs self) outs)), st')
    ∧ world st' = w'
    ∧ writer_calls (trace st') = writer_calls (trace st) ++ output_specs self.
Proof.
  intros Hwrites Hids. destruct st as [w tr].
  destruct (write_loop_returns data _ w outs w' [] tr Hwrites Hids)
    as (evs & Hwrite & Hw & _).
  eexists. split_and!; [exact Hwrite|done|].
  simpl. by rewrite writer_calls_app, Hw.
Qed.

Lemma stored_keys_inv data spec out df k :
  od_getitem data (input_id spec) = Ok df →
  k ∈ written_keys spec out → k ∈ od_keys (stored data spec out).
Proof.
  intros Hget. unfold stored, written_keys. destruct (truthy out); [done|].
  rewrite Hget. by destruct (py_hash (spec_id spec)).
Qed.

Lemma stores_keys_inv data specs w outs w' j spec out k :
  writes data specs w outs w' →
  specs !! j = Some spec → outs !! j = Some out →
  k ∈ written_keys spec out → k ∈ od_keys (stores data specs outs).
Proof.
  intros Hwrites. revert j.
  induction Hwrites as [w|spec0 specs w df out0 w1 outs w2 Hget _ _ IH];
    intros j Hspec Hout Hk; [done|].
  simpl. unfold od_keys. rewrite fmap_app, elem_of_app.
  destruct j as [|j]; simpl in *.
  - injection Hspec as ->. injection Hout as ->. left.
    by eapply stored_keys_inv.
  - right. by eapply IH.
Qed.

(** X6: the registry that [write] returns has no key twice, and its keys
    are exactly the keys that the output specifications write: the keys of
    the mapping that the writer returned, or the identifier of the
    specification when the writer returned nothing or an empty mapping. *)
Theorem write_registry_keys (self : DataLoader) data st outs w' r st' :
  writes data (output_specs self) (world st) outs w' →
  write self data st = (Ok r, st') →
  NoDup (od_keys r)
  ∧ ∀ k, k ∈ od_keys r ↔
         ∃ j spec out,
           output_specs self !! j = Some spec
           ∧ outs !! j = Some out
           ∧ k ∈ written_keys spec out.
Proof.
  intros Hwrites Hwrite. destruct st as [w tr]. unfold write in Hwrite.
  destruct (write_loop_writes _ _ _ _ _ _ _ _ _ Hwrites Hwrite) as [-> _].
  split.
  - apply NoDup_od_update. constructor.
  - intros k. rewrite elem_of_od_keys_update. split.
    + intros [Hin|Hin]; [by apply elem_of_nil in Hin|].
      by apply stores_keys in Hin.
    + intros (j & spec & out & ? & ? & ?). right.
      by eapply stores_keys_inv.
Qed.

Lemma stores_passthrough data specs outs ks dfs :
  Forall (λ out, truthy out = false) outs →
  length outs = length specs →
  Forall2 (λ spec k, py_hash (spec_id spec) = Some k) specs ks →
  Forall2 (λ spec df, od_getitem data (input_id spec) = Ok df) specs dfs →
  stores data specs outs = zip ks dfs.
Proof.
  intros Houts. revert specs ks dfs.
  induction Houts as [|out outs Hout _ IH]; intros [|spec specs] ks dfs;
    simpl; try done.
  - intros _ Hks Hdfs. by apply Forall2_nil_inv_l in Hks as ->.
  - intros [= Hlen] Hks Hdfs.
    apply Forall2_cons_inv_l in Hks as (k & ks' & Hk & Hks & ->).
    apply Forall2_cons_inv_l in Hdfs as (df & dfs' & Hdf & Hdfs & ->).
    unfold stored. rewrite Hout, Hdf, Hk. simpl. f_equal. by apply IH.
Qed.

(** X7: when the writer returns nothing (or an empty mapping) for every
    output specification and the identifiers of the specifications are
    pairwise distinct, [write] returns the registry that has, in the order
    of declaration, one entry per output specification: its key is the
    identifier of the specification and its value the data frame of the
    given registry under its [input_id]. *)
Theorem write_passthrough_registry (self : DataLoader) data st outs w' ks dfs :
  writes data (output_specs self) (world st) outs w' →
  Forall (λ out, truthy out = false) outs →
  Forall2 (λ spec k, py_hash (spec_id spec) = Some k) (output_specs self) ks →
  NoDup ks →
  Forall2 (λ spec df, od_getitem data (input_id spec) = Ok df)
    (output_specs self) dfs →
  ∃ st',
    write self data st = (Ok (zip ks dfs), st')
    ∧ world st' = w'
    ∧ length (zip ks dfs) = length (output_specs self).
Proof.
  intros Hwrites Houts Hks Hnd Hdfs.
  pose proof (writes_length _ _ _ _ _ Hwrites) as Hlen.
  pose proof (Forall2_length _ _ _ Hks) as Hlen1.
  pose proof (Forall2_length _ _ _ Hdfs) as Hlen2.
  destruct st as [w tr].
  destruct (write_loop_returns data (output_specs self) w outs w' [] tr Hwrites)
    as (evs & Hw & _ & _).
  { apply Forall2_same_length_lookup_2; [done|].
    intros i spec out Hspec Hout _.
    destruct (Forall2_lookup_l _ _ _ _ _ Hks Hspec) as (k & _ & ->).
    by eexists. }
  exists {| world := w'; trace := tr ++ evs |}. unfold write.
  split_and!; [|done|rewrite length_zip; lia].
  rewrite Hw, (stores_passthrough _ _ _ ks dfs); [|done..].
  rewrite od_update_distinct; [done|]. simpl. unfold od_keys.
  rewrite fst_zip; [done|lia].
Qed.

(** X8: when the writer raises for an output specification (the ones
    declared before it having been written), [write] raises the same
    exception and returns no registry; the calls made for the earlier
    specifications stay made, the world is the one that the failing call
    left, and the writer is not called for the specifications declared
    after it. *)
Theorem write_fails_fast (self : DataLoader) data st pre spec post
    written st1 df e w2 :
  output_specs self = pre ++ spec :: post →
  write_loop pre data [] st = (Ok written, st1) →
  od_getitem data (input_id spec) = Ok df →
  writer spec df data (world st1) = (Raise e, w2) →
  write self data st =
    (Raise e,
     {| world := w2;
        trace := trace st1 ++ [LogInfo (FoundOutput spec);
                               WriterCall spec df data (Raise e)] |})
  ∧ writer_calls (trace st1 ++ [LogInfo (FoundOutput spec);
                                WriterCall spec df data (Raise e)])
    = writer_calls (trace st) ++ pre ++ [spec].
Proof.
  intros Hspecs Hpre Hget Hcall. split.
  - unfold write. rewrite Hspecs, write_loop_app, Hpre. simpl.
    unfold mbind, M_bind, logger_info, WriterFactory_write, lift. simpl.
    rewrite Hget, Hcall. by rewrite <- !app_assoc.
  - rewrite writer_calls_app. simpl.
    rewrite (write_loop_ok_calls _ _ _ _ _ _ Hpre). by rewrite <- !app_assoc.
Qed.

End more_write_facts.

(** *** The stages of [execute] *)

Section more_execute_facts.
Context `{C : Collaborators}.
Implicit Types (st : state) (d data : odict DataFrame) (e : exn).

(** X9: in every execution the calls of the reader come before the calls
    of the writer: the events of [execute] split into a first part without
    a call of the writer and a second part without a call of the reader.
    The reader is called for a beginning of the input specifications and
    the writer for a beginning of the output specifications, and the
    writer is called only when the reader has been called for every input
    specification. *)
Theorem execute_reads_before_writes (self : DataLoader) st :
  ∃ evr evw,
    trace (execute self st).2 = trace st ++ evr ++ evw
    ∧ writer_calls evr = []
    ∧ reader_calls evw = []
    ∧ reader_calls evr `prefix_of` input_specs self
    ∧ writer_calls evw `prefix_of` output_specs self
    ∧ (writer_calls evw ≠ [] → reader_calls evr = input_specs self).
Proof.
  unfold execute, try_except, raise, mbind, M_bind, logger_info, print.
  simpl.
  destruct (read_loop_trace (input_specs self) []
              (emit (LogInfo StartingRead) st))
    as (evs_r & Htr_r & Hw_r & Hpre_r & Hall_r).
  fold (read self (emit (LogInfo StartingRead) st)) in Htr_r, Hall_r.
  destruct (read self (emit (LogInfo StartingRead) st))
    as [[read_dfs|e] st1]; simpl in *.
  - specialize (Hall_r read_dfs eq_refl).
    destruct (write_loop_trace (output_specs self) read_dfs []
                (emit (LogInfo StartingWrite) (emit (Printed read_dfs) st1)))
      as (evs_w & Htr_w & Hr_w & Hpre_w & _ & _).
    fold (write self read_dfs
            (emit (LogInfo StartingWrite) (emit (Printed read_dfs) st1)))
      in Htr_w.
    destruct (write self read_dfs _) as [[written_dfs|e] st2]; simpl in *.
    + exists (LogInfo StartingRead :: evs_r),
             (Printed read_dfs :: LogInfo StartingWrite :: evs_w
              ++ [LogInfo Finished]).
      split_and!.
      * rewrite Htr_w, Htr_r. simpl. by rewrite <- !app_assoc.
      * done.
      * simpl. by rewrite reader_calls_app, Hr_w.
      * done.
      * simpl. by rewrite writer_calls_app, app_nil_r.
      * done.
    + exists (LogInfo StartingRead :: evs_r),
             (Printed read_dfs :: LogInfo StartingWrite :: evs_w).
      split_and!; [|done..].
      rewrite Htr_w, Htr_r. simpl. by rewrite <- !app_assoc.
  - exists (LogInfo StartingRead :: evs_r), [].
    split_and!; [|done|done|done|apply prefix_nil|done].
    rewrite Htr_r. simpl. by rewrite app_nil_r, <- !app_assoc.
Qed.

(** X10: [execute] returns when the reader returns for every input
    specification, every identifier of an input specification is hashable,
    and [write] returns on the registry that was read (see X5).  Its value
    is the registry of [write] on the registry of [read]; the reader was
    called once per input specification and the writer once per output
    specification. *)
Theorem execute_returns (self : DataLoader) st ks dfs w1 outs w2 :
  hashed_ids (input_specs self) ks →
  reads (input_specs self) (world st) dfs w1 →
  writes (od_update [] (zip ks dfs)) (output_specs self) w1 outs w2 →
  Forall2 (λ spec out, truthy out = false → is_Some (py_hash (spec_id spec)))
    (output_specs self) outs →
  ∃ st',
    execute self st =
      (Ok (od_update [] (stores (od_update [] (zip ks dfs))
                           (output_specs self) outs)), st')
    ∧ world st' = w2
    ∧ reader_calls (trace st') = reader_calls (trace st) ++ input_specs self
    ∧ writer_calls (trace st') = writer_calls (trace st) ++ output_specs self.
Proof.
  intros Hks Hreads Hwrites Hids.
  unfold execute, try_except, raise, mbind, M_bind, logger_info, print, emit.
  simpl. unfold read, write.
  rewrite (read_loop_reads _ ks dfs [] _ _ w1 Hks Hreads). simpl.
  destruct (write_loop_returns _ _ w1 outs w2 []
              (((trace st ++ [LogInfo StartingRead])
                ++ read_events (input_specs self) dfs)
               ++ [Printed (od_update [] (zip ks dfs))]
               ++ [LogInfo StartingWrite]) Hwrites Hids)
    as (evs & Hwrite & Hcalls_w & Hcalls_r).
  rewrite <- !app_assoc in Hwrite. rewrite <- !app_assoc. simpl in *.
  rewrite Hwrite. eexists. split_and!; [done|done|..]; simpl.
  - rewrite !reader_calls_app. simpl. rewrite !reader_calls_app. simpl.
    rewrite reader_calls_read_events, Hcalls_r, !app_nil_r; [done|].
    by eapply reads_length.
  - rewrite !writer_calls_app. simpl. rewrite !writer_calls_app. simpl.
    by rewrite writer_calls_read_events, Hcalls_w, !app_nil_r.
Qed.

End more_execute_facts.

(** *** The specifications built from the ACON *)

Section more_construct_facts.
Context `{C : Collaborators}.

Lemma comprehension_ok_iff {A B : Type} (f : A → result B) l :
  (∃ l', comprehension f l = Ok l') ↔ Forall (λ x, ∃ y, f x = Ok y) l.
Proof.
  induction l as [|x l IH]; simpl.
  - split; [constructor|by exists []].
  - unfold mbind, result_bind, mret, result_ret. rewrite Forall_cons, <- IH.
    destruct (f x) as [y|e].
    + destruct (comprehension f l) as [ys|e'].
      * split; [eauto|by eexists].
      * split; [by intros [? ?]|by intros [_ [? ?]]].
    + split; [by intros [? ?]|by intros [[? ?] _]].
Qed.

Lemma comprehension_raises {A B : Type} (f : A → result B) pre x post ys e :
  comprehension f pre = Ok ys →
  f x = Raise e →
  comprehension f (pre ++ x :: post) = Raise e.
Proof.
  revert ys. induction pre as [|x0 pre IH]; intros ys; simpl.
  - intros _ ->. done.
  - unfold mbind, result_bind, mret, result_ret.
    destruct (f x0) as [y0|e0]; [|done].
    destruct (comprehension f pre) as [ys0|e0] eqn:Hpre; [|done].
    intros _ Hx. by rewrite (IH ys0 eq_refl Hx).
Qed.

Lemma output_spec_of_ok_iff entry :
  (∃ spec, output_spec_of entry = Ok spec) ↔
  ∃ d, entry = PyDict d
       ∧ is_Some (dict_lookup "spec_id" d)
       ∧ is_Some (dict_lookup "input_id" d).
Proof.
  split.
  - intros [spec Hspec]. destruct entry as [| | | | |d]; try done.
    exists d. simpl in Hspec. unfold mbind, result_bind, dict_getitem in Hspec.
    destruct (dict_lookup "spec_id" d); [|done].
    destruct (dict_lookup "input_id" d); [|done].
    by split_and!.
  - intros (d & -> & [sid Hsid] & [iid Hiid]).
    eexists. by apply output_spec_of_dict.
Qed.

(** X11: [_get_output_specs] returns a list exactly when the ACON has the
    key [output_specs], its value can be iterated, and every entry is a
    dict with the keys [spec_id] and [input_id].  Nothing else is asked of
    an entry; in particular its [input_id] is not compared with the input
    specifications. *)
Theorem get_output_specs_accepts acon :
  (∃ specs, _get_output_specs acon = Ok specs) ↔
  ∃ v entries,
    dict_lookup "output_specs" acon = Some v
    ∧ py_iter v = Ok entries
    ∧ Forall (λ entry,
        ∃ d, entry = PyDict d
             ∧ is_Some (dict_lookup "spec_id" d)
             ∧ is_Some (dict_lookup "input_id" d)) entries.
Proof.
  unfold _get_output_specs, mbind, result_bind, dict_getitem.
  destruct (dict_lookup "output_specs" acon) as [v|].
  - destruct (py_iter v) as [entries|e] eqn:Hiter.
    + rewrite comprehension_ok_iff. split.
      * intros Hall. exists v, entries. split_and!; [done..|].
        eapply Forall_impl; [exact Hall|].
        intros entry. apply output_spec_of_ok_iff.
      * intros (v' & entries' & [= <-] & Hiter' & Hall).
        rewrite Hiter in Hiter'. injection Hiter' as <-.
        eapply Forall_impl; [exact Hall|].
        intros entry. apply output_spec_of_ok_iff.
    + split; [by intros [? ?]|].
      intros (v' & entries' & [= <-] & Hiter' & _). congruence.
  - split; [by intros [? ?]|by intros (? & ? & ? & _)].
Qed.

(** X12: an entry of [output_specs] without [spec_id] makes
    [_get_output_specs] raise the [KeyError] of [spec_id], and one with
    [spec_id] and without [input_id] the [KeyError] of [input_id], when
    the entries before it are accepted. *)
Theorem output_spec_missing_key acon pre d post specs key :
  dict_lookup "output_specs" acon = Some (PyList (pre ++ PyDict d :: post)) →
  comprehension output_spec_of pre = Ok specs →
  (dict_lookup "spec_id" d = None ∧ key = "spec_id")
  ∨ (is_Some (dict_lookup "spec_id" d)
     ∧ dict_lookup "input_id" d = None ∧ key = "input_id") →
  _get_output_specs acon = Raise (KeyError (KStr key)).
Proof.
  intros Hacon Hpre Hkey.
  unfold _get_output_specs, mbind, result_bind, dict_getitem.
  rewrite Hacon. simpl. eapply comprehension_raises; [exact Hpre|].
  simpl. unfold mbind, result_bind, dict_getitem.
  destruct Hkey as [[-> ->]|([sid ->] & -> & ->)]; done.
Qed.

(** X13: the output specifications are built one per entry, in the order
    of the entries, and a value that an entry gives is stored as it is:
    [spec_id] and [input_id] are those of the entry, an optional field has
    the value of the entry when the entry has the key, and [write_type],
    [db_table] and [location] are [None] when it has not. *)
Theorem output_spec_fields acon specs :
  _get_output_specs acon = Ok specs →
  ∃ entries,
    (dict_getitem acon "output_specs" ≫= py_iter) = Ok entries
    ∧ Forall2 (λ entry spec,
        ∃ d, entry = PyDict d
             ∧ dict_lookup "spec_id" d = Some (spec_id spec)
             ∧ dict_lookup "input_id" d = Some (input_id spec)
             ∧ (∀ v, dict_lookup "write_type" d = Some v → write_type spec = v)
             ∧ (∀ v, dict_lookup "data_format" d = Some v →
                     data_format spec = v)
             ∧ (∀ v, dict_lookup "db_table" d = Some v → db_table spec = v)
             ∧ (∀ v, dict_lookup "location" d = Some v → location spec = v)
             ∧ (∀ v, dict_lookup "partitions" d = Some v → partitions spec = v)
             ∧ (dict_lookup "write_type" d = None → write_type spec = PyNone)
             ∧ (dict_lookup "db_table" d = None → db_table spec = PyNone)
             ∧ (dict_lookup "location" d = None → location spec = PyNone))
        entries specs.
Proof.
  unfold _get_output_specs, mbind, result_bind.
  destruct (dict_getitem acon "output_specs") as [v|e]; [|done].
  destruct (py_iter v) as [entries|e]; [|done].
  intros Hspecs. exists entries. split; [done|].
  apply comprehension_Forall2 in Hspecs.
  eapply Forall2_impl; [exact Hspecs|]. clear.
  intros entry spec. destruct entry as [| | | | |d]; try done. simpl.
  unfold mbind, result_bind, mret, result_ret, dict_getitem.
  destruct (dict_lookup "spec_id" d) as [sid|] eqn:Hsid; [|done].
  destruct (dict_lookup "input_id" d) as [iid|] eqn:Hiid; [|done].
  intros [= <-]. exists d. simpl. unfold dict_get.
  split_and!; try done; first [by intros ? ->|by intros ->].
Qed.

(** X14: the input specifications are built one per entry of
    [input_specs], in the order of the entries, each from the dict of its
    entry. *)
Theorem input_specs_pointwise acon specs :
  _get_input_specs acon = Ok specs →
  ∃ entries,
    (dict_getitem acon "input_specs" ≫= py_iter) = Ok entries
    ∧ Forall2 (λ entry spec, ∃ d, entry = PyDict d ∧ InputSpec_new d = Ok spec)
        entries specs.
Proof.
  unfold _get_input_specs, mbind, result_bind.
  destruct (dict_getitem acon "input_specs") as [v|e]; [|done].
  destruct (py_iter v) as [entries|e]; [|done].
  intros Hspecs. exists entries. split; [done|].
  apply comprehension_Forall2 in Hspecs.
  eapply Forall2_impl; [exact Hspecs|].
  intros entry spec. destruct entry as [| | | | |d]; try done. eauto.
Qed.

Lemma comprehension_head_raises {A B : Type} (f : A → result B) x l e :
  f x = Raise e → comprehension f (x :: l) = Raise e.
Proof. intros Hx. simpl. by rewrite Hx. Qed.

(** X15: a collection that is given as [None], as a truth value, as an
    integer, as a string that is not empty, or as a dict with string keys
    that is not empty (a single entry in the place of the list of entries)
    makes the construction of the specifications raise a [TypeError]. *)
Theorem collection_wrong_kind acon v :
  v = PyNone
  ∨ (∃ b, v = PyBool b)
  ∨ (∃ z, v = PyInt z)
  ∨ (∃ s, s ≠ "" ∧ v = PyStr s)
  ∨ (∃ d, d ≠ [] ∧ v = PyDict d) →
  (dict_lookup "input_specs" acon = Some v →
   _get_input_specs acon = Raise TypeError)
  ∧ (dict_lookup "output_specs" acon = Some v →
     _get_output_specs acon = Raise TypeError).
Proof.
  intros Hkind.
  unfold _get_input_specs, _get_output_specs, mbind, result_bind, dict_getitem.
  destruct Hkind as [->|[[b ->]|[[z ->]|[(s & Hs & ->)|(d & Hd & ->)]]]];
    split; intros ->; try done.
  - destruct s; [done|]. by apply comprehension_head_raises.
  - destruct s; [done|]. by apply comprehension_head_raises.
  - destruct d; [done|]. by apply comprehension_head_raises.
  - destruct d; [done|]. by apply comprehension_head_raises.
Qed.

End more_construct_facts.

(** *** The further properties at work on the small back end *)

Lemma read_registry_keys_witness :
  let self := Demo.loader [Demo.in_a; Demo.in_b; Demo.in_a] [] in
  let r := [(KStr "a", 2); (KStr "b", 1)] in
  fst (read self Demo.start) = Ok r
  ∧ ∃ ks,
      hashed_ids (input_specs self) ks
      ∧ NoDup (od_keys r)
      ∧ (∀ k, k ∈ od_keys r ↔ k ∈ ks)
      ∧ length r ≤ length (input_specs self).
Proof.
  intros self r. split; [reflexivity|].
  apply (read_registry_keys self Demo.start r (snd (read self Demo.start))).
  reflexivity.
Defined.

Lemma write_returns_witness :
  let o1 := Demo.out "o1" "a" PyNone in
  let o2 := Demo.out "o2" "b" (PyStr "t") in
  let self := Demo.loader [] [o1; o2] in
  let outs := [None; Some [(KStr "t", 2)]] in
  ∃ st',
    write self Demo.data_ab Demo.after_read =
      (Ok (od_update [] (stores Demo.data_ab (output_specs self) outs)), st')
    ∧ world st' = 3
    ∧ writer_calls (trace st') = [] ++ [o1; o2].
Proof.
  intros o1 o2 self outs.
  apply (write_returns self Demo.data_ab Demo.after_read outs 3).
  - repeat econstructor.
  - constructor; [intros _; by eexists|].
    constructor; [intros H; simpl in H; discriminate H|].
    constructor.
Defined.

Lemma write_registry_keys_witness :
  let o1 := Demo.out "o1" "a" PyNone in
  let o2 := Demo.out "o2" "b" (PyStr "t") in
  let self := Demo.loader [] [o1; o2] in
  let outs := [None; Some [(KStr "t", 2)]] in
  let r := [(KStr "o1", 0); (KStr "t", 2)] in
  NoDup (od_keys r)
  ∧ ∀ k, k ∈ od_keys r ↔
         ∃ j spec out,
           output_specs self !! j = Some spec
           ∧ outs !! j = Some out
           ∧ k ∈ written_keys spec out.
Proof.
  intros o1 o2 self outs r.
  apply (write_registry_keys self Demo.data_ab Demo.after_read outs 3 r
           (snd (write self Demo.data_ab Demo.after_read))).
  - repeat econstructor.
  - reflexivity.
Defined.

Lemma write_passthrough_registry_witness :
  let o1 := Demo.out "o1" "a" PyNone in
  let o2 := Demo.out_empty "o2" "b" in
  let self := Demo.loader [] [o1; o2] in
  ∃ st',
    write self Demo.data_ab Demo.after_read =
      (Ok (zip [KStr "o1"; KStr "o2"] [0; 1]), st')
    ∧ world st' = 2
    ∧ length (zip [KStr "o1"; KStr "o2"] [0; 1]) = length (output_specs self).
Proof.
  intros o1 o2 self.
  apply (write_passthrough_registry self Demo.data_ab Demo.after_read
           [None; Some []] 2 [KStr "o1"; KStr "o2"] [0; 1]).
  - repeat econstructor.
  - repeat constructor.
  - repeat constructor.
  - apply (bool_decide_unpack _). vm_compute. exact I.
  - repeat constructor.
Defined.

Lemma write_fails_fast_witness :
  let o1 := Demo.out "o1" "a" PyNone in
  let o2 := {| spec_id := PyStr "o2"; input_id := PyStr "b";
               write_type := PyStr "fail"; data_format := PyStr "delta";
               db_table := PyNone; location := PyNone;
               partitions := PyList [] |} in
  let o3 := Demo.out "o3" "a" PyNone in
  let self := Demo.loader [] [o1; o2; o3] in
  let st1 := snd (write_loop [o1] Demo.data_ab [] Demo.after_read) in
  let e := OtherError "IOError" in
  write self Demo.data_ab Demo.after_read =
    (Raise e,
     {| world := 2;
        trace := trace st1 ++ [LogInfo (FoundOutput o2);
                               WriterCall o2 1 Demo.data_ab (Raise e)] |})
  ∧ writer_calls (trace st1 ++ [LogInfo (FoundOutput o2);
                                WriterCall o2 1 Demo.data_ab (Raise e)])
    = [] ++ [o1] ++ [o2].
Proof.
  intros o1 o2 o3 self st1 e.
  apply (write_fails_fast self Demo.data_ab Demo.after_read [o1] o2 [o3]
           [(KStr "o1", 0)] st1 1 e 2); reflexivity.
Defined.

Lemma execute_returns_witness :
  let o1 := Demo.out "o1" "a" PyNone in
  let o2 := Demo.out "o2" "b" (PyStr "t") in
  let self := Demo.loader [Demo.in_a; Demo.in_b] [o1; o2] in
  let data := od_update [] (zip [KStr "a"; KStr "b"] [0; 1]) in
  let outs := [None; Some [(KStr "t", 2)]] in
  ∃ st',
    execute self Demo.start =
      (Ok (od_update [] (stores data (output_specs self) outs)), st')
    ∧ world st' = 3
    ∧ reader_calls (trace st') = [] ++ input_specs self
    ∧ writer_calls (trace st') = [] ++ output_specs self.
Proof.
  intros o1 o2 self data outs.
  apply (execute_returns self Demo.start [KStr "a"; KStr "b"] [0; 1] 2 outs 3).
  - repeat constructor.
  - repeat econstructor.
  - repeat econstructor.
  - constructor; [intros _; by eexists|].
    constructor; [intros H; simpl in H; discriminate H|].
    constructor.
Defined.

Lemma output_spec_missing_key_witness :
  let acon :=
    Demo.document [] [Demo.output "o1" "a"; PyDict [("spec_id", PyStr "o2")]] in
  _get_output_specs (C:=Demo.demo) acon = Raise (KeyError (KStr "input_id")).
Proof.
  intros acon.
  apply (output_spec_missing_key (C:=Demo.demo) acon [Demo.output "o1" "a"]
           [("spec_id", PyStr "o2")] [] [Demo.out "o1" "a" PyNone] "input_id").
  - reflexivity.
  - reflexivity.
  - right. split_and!; [by eexists|reflexivity..].
Defined.

Lemma output_spec_fields_witness :
  let entry :=
    PyDict [("spec_id", PyStr "o1"); ("input_id", PyStr "a");
            ("data_format", PyStr "csv"); ("partitions", PyList [PyStr "day"])] in
  let acon := Demo.document [] [entry] in
  let spec := {| spec_id := PyStr "o1"; input_id := PyStr "a";
                 write_type := PyNone; data_format := PyStr "csv";
                 db_table := PyNone; location := PyNone;
                 partitions := PyList [PyStr "day"] |} in
  _get_output_specs (C:=Demo.demo) acon = Ok [spec]
  ∧ ∃ entries,
      (dict_getitem acon "output_specs" ≫= py_iter) = Ok entries
      ∧ length entries = 1.
Proof.
  intros entry acon spec. split; [reflexivity|].
  destruct (output_spec_fields (C:=Demo.demo) acon [spec] eq_refl)
    as (entries & Hentries & Hall).
  exists entries. split; [exact Hentries|].
  by apply Forall2_length in Hall.
Defined.

Lemma input_specs_pointwise_witness :
  let acon := Demo.document [Demo.input "a"; Demo.input "b"] [] in
  ∃ entries,
    (dict_getitem acon "input_specs" ≫= py_iter) = Ok entries
    ∧ Forall2 (λ entry spec,
        ∃ d, entry = PyDict d ∧ InputSpec_new (Collaborators:=Demo.demo) d = Ok spec)
        entries [Demo.in_a; Demo.in_b].
Proof.
  intros acon.
  apply (input_specs_pointwise (C:=Demo.demo) acon [Demo.in_a; Demo.in_b]).
  reflexivity.
Defined.

Lemma collection_wrong_kind_witness :
  let single := PyDict [("spec_id", PyStr "o1"); ("input_id", PyStr "a")] in
  let acon := [("input_specs", PyList []); ("output_specs", single)] in
  _get_output_specs (C:=Demo.demo) acon = Raise TypeError.
Proof.
  intros single acon.
  assert (single = PyNone
          ∨ (∃ b, single = PyBool b)
          ∨ (∃ z, single = PyInt z)
          ∨ (∃ s, s ≠ "" ∧ single = PyStr s)
          ∨ (∃ d, d ≠ [] ∧ single = PyDict d)) as Hkind.
  { do 4 right. eexists. split; [|reflexivity]. discriminate. }
  destruct (collection_wrong_kind (C:=Demo.demo) acon single Hkind)
    as [_ Hout].
  apply Hout. reflexivity.
Defined.
